(** * Traffic Cop: a shallow embedding of media/js/base/mozilla-traffic-cop.js

    The development follows the JavaScript source function by function.

    - JavaScript values that the code inspects dynamically ([typeof], truthiness,
      [===]) are the inductive type [jsval]; numbers are the integers [Z]
      (percentages; NaN and fractions are not part of the model), strings are
      byte strings. Arithmetic coerces undefined, null and booleans as the
      language does; on a string or an object, where [+] concatenates, it
      completes abruptly with [Unmodelled].
    - The [variations] object is a plain object: the list of its own
      enumerable properties in the order in which [for (var v in ...)] visits
      them (a missing object is [None]); [object_literal] computes that order
      from the order in which a literal lists its properties. A property read
      that misses the own properties finds the members every plain object
      inherits from [Object.prototype], and gives [undefined] otherwise.
    - [window] and the cookie jar form the record [World]; every call of the
      cookie interface and every navigation is also appended to a log, so that
      "no read", "no write" and "no navigation" are statements about the log.
    - [Math.floor(Math.random() * 100) + 1] is the parameter [rando].
    - Methods that mutate [this] or the world live in the monad [M]
      (state of the instance and the world, plus abrupt completion). *)

From Stdlib Require Import ZArith Ascii String.
From stdpp Require Import base option list strings gmap pretty.

Local Open Scope Z_scope.

(** ** JavaScript values *)

Inductive jsval : Type :=
| JUndefined
| JNull
| JBool (b : bool)
| JNum (n : Z)
| JStr (s : string)
| JObject                      (* an object that is not callable *)
| JFunction (name : string).   (* a built-in function *)

#[global] Instance jsval_eq_dec : EqDecision jsval.
Proof. solve_decision. Defined.

(** [typeof x] *)
Definition typeof (x : jsval) : string :=
  match x with
  | JUndefined => "undefined"
  | JNull => "object"
  | JBool _ => "boolean"
  | JNum _ => "number"
  | JStr _ => "string"
  | JObject => "object"
  | JFunction _ => "function"
  end.

(** ToBoolean: the test of [if (x)], [!x], [x || y] and [x && y]. *)
Definition truthy (x : jsval) : bool :=
  match x with
  | JUndefined | JNull => false
  | JBool b => b
  | JNum n => negb (n =? 0)
  | JStr s => negb (String.eqb s "")
  | JObject | JFunction _ => true
  end.

(** ToString, also used for property keys. *)
Definition ToString (x : jsval) : string :=
  match x with
  | JUndefined => "undefined"
  | JNull => "null"
  | JBool true => "true"
  | JBool false => "false"
  | JNum n => pretty n
  | JStr s => s
  | JObject => "[object Object]"
  | JFunction name => "function " +:+ name +:+ "() { [native code] }"
  end.

(** [x === y]; the code compares with a string only. *)
Definition strict_eq (x y : jsval) : bool := bool_decide (x = y).

(** [a || b] for an optional string argument [a] and a string [b]. *)
Definition or_else (a : option string) (b : string) : string :=
  match a with
  | Some s => if truthy (JStr s) then s else b
  | None => b
  end.

(** [haystack.indexOf(needle)]: position of the first occurrence, or -1. *)
Fixpoint indexOf_from (pos : Z) (haystack needle : string) : Z :=
  if String.prefix needle haystack then pos
  else match haystack with
       | EmptyString => -1
       | String _ rest => indexOf_from (pos + 1) rest needle
       end.

Definition indexOf (haystack needle : string) : Z :=
  indexOf_from 0 haystack needle.

(** ** Objects *)

(** An object literal as the code uses it: own enumerable properties in
    enumeration order. *)
Definition object : Type := list (string * jsval).

(** The own property [k] of [o], if there is one. *)
Fixpoint get_own (o : object) (k : string) : option jsval :=
  match o with
  | [] => None
  | (k', x) :: rest => if String.eqb k' k then Some x else get_own rest k
  end.

(** What every plain object inherits from [Object.prototype]; none of it is
    enumerable. *)
Definition Object_prototype : object :=
  [("constructor", JFunction "Object");
   ("hasOwnProperty", JFunction "hasOwnProperty");
   ("isPrototypeOf", JFunction "isPrototypeOf");
   ("propertyIsEnumerable", JFunction "propertyIsEnumerable");
   ("toLocaleString", JFunction "toLocaleString");
   ("toString", JFunction "toString");
   ("valueOf", JFunction "valueOf");
   ("__defineGetter__", JFunction "__defineGetter__");
   ("__defineSetter__", JFunction "__defineSetter__");
   ("__lookupGetter__", JFunction "__lookupGetter__");
   ("__lookupSetter__", JFunction "__lookupSetter__");
   ("__proto__", JObject)].

(** [o[k]]: the own property, else the inherited member, else undefined. *)
Definition get (o : object) (k : string) : jsval :=
  match get_own o k with
  | Some x => x
  | None => default JUndefined (get_own Object_prototype k)
  end.

(** The properties [for (var v in o)] visits; none when [o] is undefined. *)
Definition enumerate (o : option object) : object := default [] o.

(** *** The order of the properties of an object literal *)

(** The value of a string of decimal digits; [None] for any other string. *)
Fixpoint digits_value (s : string) (acc : N) : option N :=
  match s with
  | EmptyString => Some acc
  | String c rest =>
      let d := Ascii.N_of_ascii c in
      if ((48 <=? d) && (d <=? 57))%N
      then digits_value rest (10 * acc + (d - 48))%N
      else None
  end.

(** [Some n] when [k] is an array index: the canonical decimal numeral of an
    integer [n] below 2^32 - 1 (no sign, no leading zero). *)
Definition array_index (k : string) : option N :=
  match k with
  | EmptyString => None
  | String c rest =>
      if Ascii.eqb c "0" && negb (String.eqb rest "") then None
      else match digits_value k 0 with
           | Some n => if (n <? 4294967295)%N then Some n else None
           | None => None
           end
  end.

(** [o[k] = x] on the own properties: an existing property keeps its place,
    a new one goes last. *)
Fixpoint set_property {A : Type} (o : list (string * A)) (k : string) (x : A)
    : list (string * A) :=
  match o with
  | [] => [(k, x)]
  | (k', y) :: rest =>
      if String.eqb k' k then (k', x) :: rest
      else (k', y) :: set_property rest k x
  end.

(** Insertion of an array-index property among those already sorted. *)
Fixpoint insert_index {A : Type} (n : N) (p : string * A)
    (sorted : list (N * (string * A))) : list (N * (string * A)) :=
  match sorted with
  | [] => [(n, p)]
  | (m, q) :: rest =>
      if (n <? m)%N then (n, p) :: (m, q) :: rest
      else (m, q) :: insert_index n p rest
  end.

Fixpoint index_properties {A : Type} (o : list (string * A))
    : list (N * (string * A)) :=
  match o with
  | [] => []
  | (k, x) :: rest =>
      match array_index k with
      | Some n => insert_index n (k, x) (index_properties rest)
      | None => index_properties rest
      end
  end.

Fixpoint named_properties {A : Type} (o : list (string * A))
    : list (string * A) :=
  match o with
  | [] => []
  | (k, x) :: rest =>
      match array_index k with
      | Some _ => named_properties rest
      | None => (k, x) :: named_properties rest
      end
  end.

(** The own properties of the object that the literal [{k1: x1, k2: x2, ...}]
    creates, in the order in which [for (var v in ...)] visits them: the
    array indices in ascending order first, then the other names in the order
    in which the literal introduces them. [entries] is the literal as
    written. *)
Definition object_literal {A : Type} (entries : list (string * A))
    : list (string * A) :=
  let created := foldl (λ o p, set_property o p.1 p.2) [] entries in
  (snd <$> index_properties created) ++ named_properties created.

(** The [config] argument of the constructor, when it is an object. *)
Record Config : Type := mkConfig {
  cfg_id : jsval;
  cfg_variations : option object
}.

(** An instance of [Mozilla.TrafficCop]. *)
Record TrafficCopInstance : Type := mkInstance {
  id : jsval;
  variations : option object;
  totalPercentage : Z;
  redirectVariation : jsval
}.

(** Lines 57-61: the sum of the numeric variation values. *)
Fixpoint tally (props : object) (totalPercentage : Z) : Z :=
  match props with
  | [] => totalPercentage
  | (v, JNum n) :: rest => tally rest (totalPercentage + n)
  | (v, _) :: rest => tally rest totalPercentage
  end.

(** [new Mozilla.TrafficCop(config)] on an argument for which lines 43-61 do
    not throw: [Some c] is an object other than [null]; [None] is an argument
    whose [typeof] is not ['object'], replaced by [{}]. [construct], below,
    is the constructor on every argument. *)
Definition TrafficCop (config : option Config) : TrafficCopInstance :=
  let config := default (mkConfig JUndefined None) config in
  {| id := cfg_id config;
     variations := cfg_variations config;
     totalPercentage := tally (enumerate (cfg_variations config)) 0;
     redirectVariation := JUndefined |}.

Definition noVariationCookieValue : string := "novariation".

(** ** The world: window and cookies *)

Inductive event : Type :=
| HasItem (sKey : string)
| GetItem (sKey : string)
| SetItem (sKey sValue : string)
| Navigate (url : string).

#[global] Instance event_eq_dec : EqDecision event.
Proof. solve_decision. Defined.

Record World : Type := mkWorld {
  cookies : gmap string string;      (* the cookie jar behind Mozilla.Cookies *)
  href : string;                     (* window.location.href *)
  search : string;                   (* window.location.search *)
  _dntEnabled : option jsval;        (* window._dntEnabled: [Some x] is a
                                        function returning [x] *)
  log : list event
}.

Definition record (e : event) (w : World) : World :=
  {| cookies := cookies w; href := href w; search := search w;
     _dntEnabled := _dntEnabled w; log := log w ++ [e] |}.

(** The world after [Mozilla.Cookies.setItem(k, v)]. *)
Definition after_setItem (k v : string) (w : World) : World :=
  {| cookies := <[k := v]> (cookies w); href := href w; search := search w;
     _dntEnabled := _dntEnabled w; log := log w ++ [SetItem k v] |}.

(** ** Pure methods *)

(** Lines 107-118. *)
Definition verifyConfig (this : TrafficCopInstance) : bool :=
  if negb (truthy (id this)) || negb (String.eqb (typeof (id this)) "string")
  then false
  else if (totalPercentage this =? 0) || (totalPercentage this >? 100)
  then false
  else true.

(** Lines 128-133, with [break] as the end of the recursion. *)
Fixpoint isVariation_loop (queryString : string) (props : object) : bool :=
  match props with
  | [] => false
  | (v, _) :: rest =>
      if (indexOf queryString ("?" +:+ v) >? -1)
         || (indexOf queryString ("&" +:+ v) >? -1)
      then true
      else isVariation_loop queryString rest
  end.

(** Lines 123-136. *)
Definition isVariation (this : TrafficCopInstance) (w : World)
    (queryString : option string) : bool :=
  let queryString := or_else queryString (search w) in
  isVariation_loop queryString (enumerate (variations this)).

(** ** Effects *)

Inductive error : Type :=
| TypeError      (* a property read on undefined or null, a call of a value
                    that is not a function *)
| Unmodelled.    (* a step outside the fragment above: [+] on a string or an
                    object, a cookie keyed by a non-string, a call of a
                    function the configuration supplies *)

Inductive result (A : Type) : Type :=
| Normal (a : A)
| Abrupt (e : error).
Arguments Normal {A} a.
Arguments Abrupt {A} e.

(** An argument of the constructor. *)
Inductive argument : Type :=
| ArgNull                   (* null: its typeof is 'object' too *)
| ArgOther                  (* any other value that is not an object *)
| ArgObject (c : Config).

(** [new Mozilla.TrafficCop(config)], lines 39-64, on every argument. Line 43
    keeps [null], and line 46 then reads a property of it. Line 58 calls
    [this.variations.hasOwnProperty], which an own property of that name
    hides: a value that is not a function cannot be called. *)
Definition construct (config : argument) : result TrafficCopInstance :=
  match config with
  | ArgNull => Abrupt TypeError
  | ArgOther => Normal (TrafficCop None)
  | ArgObject c =>
      match get_own (enumerate (cfg_variations c)) "hasOwnProperty" with
      | None => Normal (TrafficCop (Some c))
      | Some (JFunction _) => Abrupt Unmodelled
      | Some _ => Abrupt TypeError
      end
  end.

Definition state : Type := TrafficCopInstance * World.

Definition M (A : Type) : Type := state → result (A * state).

#[global] Instance M_ret : MRet M := λ A a st, Normal (a, st).

#[global] Instance M_bind : MBind M := λ A B f m st,
  match m st with
  | Normal (a, st') => f a st'
  | Abrupt e => Abrupt e
  end.

Definition bind {A B : Type} (m : M A) (f : A → M B) : M B := mbind f m.

Notation "'let*' x ':=' m 'in' k" := (bind m (λ x, k))
  (at level 10, x name, m at level 100, k at level 200, only parsing).

Definition throw {A : Type} (e : error) : M A := λ _, Abrupt e.

Definition get_this : M TrafficCopInstance := λ st, Normal (st.1, st).

Definition window : M World := λ st, Normal (st.2, st).

Definition emit (e : event) : M unit := λ st, Normal (tt, (st.1, record e st.2)).

(** The instance after [this.redirectVariation = x]. *)
Definition with_redirectVariation (this : TrafficCopInstance) (x : jsval)
    : TrafficCopInstance :=
  {| id := id this; variations := variations this;
     totalPercentage := totalPercentage this; redirectVariation := x |}.

(** [this.redirectVariation = x] *)
Definition set_redirectVariation (x : jsval) : M unit := λ st,
  Normal (tt, (with_redirectVariation st.1 x, st.2)).

(** [this.variations[k]]: a TypeError when [this.variations] is undefined. *)
Definition get_variation (k : jsval) : M jsval :=
  let* this := get_this in
  match variations this with
  | Some o => mret (get o (ToString k))
  | None => throw TypeError
  end.

Module Cookies.

(** Modelled from the spec: [Mozilla.Cookies] is defined in another file of
    the repository; section 6 gives its interface,
    [hasItem(key) -> bool], [getItem(key) -> string|null],
    [setItem(key, value, ...)], a store of string values keyed by the
    experiment id. *)
Definition hasItem (sKey : jsval) : M bool :=
  match sKey with
  | JStr k =>
      emit (HasItem k);;
      let* w := window in
      mret (bool_decide (is_Some (cookies w !! k)))
  | _ => throw Unmodelled
  end.

(** Modelled from the spec: see [hasItem]. *)
Definition getItem (sKey : jsval) : M jsval :=
  match sKey with
  | JStr k =>
      emit (GetItem k);;
      let* w := window in
      mret (from_option JStr JNull (cookies w !! k))
  | _ => throw Unmodelled
  end.

(** Modelled from the spec: see [hasItem]. *)
Definition setItem (sKey sValue : jsval) : M unit :=
  match sKey, sValue with
  | JStr k, JStr v => λ st, Normal (tt, (st.1, after_setItem k v st.2))
  | _, _ => throw Unmodelled
  end.

End Cookies.

(** [window.location.href = url] *)
Definition navigate (url : string) : M unit := λ st,
  Normal (tt, (st.1,
    {| cookies := cookies st.2; href := url; search := search st.2;
       _dntEnabled := _dntEnabled st.2; log := log st.2 ++ [Navigate url] |})).

(** ** generateRedirectUrl *)

(** The values of [runningTotal] and of the sums of line 171. *)
Inductive number : Type :=
| Finite (n : Z)
| NaN.

(** ToNumber on the values that [+] adds as numbers; [None] on a string, an
    object or a function, where [+] concatenates. *)
Definition ToNumber (x : jsval) : option number :=
  match x with
  | JUndefined => Some NaN
  | JNull => Some (Finite 0)
  | JBool true => Some (Finite 1)
  | JBool false => Some (Finite 0)
  | JNum n => Some (Finite n)
  | JStr _ | JObject | JFunction _ => None
  end.

(** [a + b] on numbers. *)
Definition plus (a b : number) : number :=
  match a, b with
  | Finite x, Finite y => Finite (x + y)
  | _, _ => NaN
  end.

(** [rando <= x]: false on NaN. *)
Definition at_most (rando : Z) (x : number) : bool :=
  match x with
  | Finite n => rando <=? n
  | NaN => false
  end.

(** Lines 169-178: the walk over the variations, [Some v] when the loop
    assigns [this.redirectVariation = v] and breaks. The weight paired with
    [v] is [this.variations[v]]. *)
Fixpoint assign_loop (rando : Z) (props : object) (runningTotal : number)
    : result (option string) :=
  match props with
  | [] => Normal None
  | (v, x) :: rest =>
      match ToNumber x with
      | Some weight =>
          if at_most rando (plus weight runningTotal) then Normal (Some v)
          else assign_loop rando rest (plus runningTotal weight)
      | None => Abrupt Unmodelled
      end
  end.

(** Lines 183-191: the value of [redirect] for the chosen variation [chosen]
    (the value of [this.redirectVariation]); [redirect] stays undefined when
    none was chosen. *)
Definition redirect_of (url querystring : string) (chosen : jsval) : jsval :=
  if truthy chosen then
    if truthy (JStr querystring) then
      JStr (url +:+ querystring +:+ "&" +:+ ToString chosen)
    else
      JStr (url +:+ "?" +:+ ToString chosen)
  else JUndefined.

Definition build_redirect (url querystring : string) : M jsval :=
  let* this := get_this in
  mret (redirect_of url querystring (redirectVariation this)).

(** Lines 142-192. [rando] is the number conjured at line 147. *)
Definition generateRedirectUrl (url querystring : option string) (rando : Z)
    : M jsval :=
  let* w := window in
  let url := or_else url (href w) in
  let querystring := or_else querystring (search w) in
  let* this := get_this in
  let* has := Cookies.hasItem (id this) in
  if has then
    let* c := Cookies.getItem (id this) in
    let* x := get_variation c in
    if truthy x then
      let* c := Cookies.getItem (id this) in
      set_redirectVariation c;;
      build_redirect url querystring
    else
      let* c := Cookies.getItem (id this) in
      if strict_eq c (JStr noVariationCookieValue)
      then mret (JStr noVariationCookieValue)
      else build_redirect url querystring
  else
    if rando <=? totalPercentage this then
      match assign_loop rando (enumerate (variations this)) (Finite 0) with
      | Normal (Some v) =>
          set_redirectVariation (JStr v);;
          build_redirect url querystring
      | Normal None => build_redirect url querystring
      | Abrupt e => throw e
      end
    else build_redirect url querystring.

(** ** init *)

(** Line 76: [typeof window._dntEnabled === 'function' && window._dntEnabled()] *)
Definition dnt (w : World) : bool :=
  match _dntEnabled w with
  | Some x => truthy x
  | None => false
  end.

(** Lines 72-101. *)
Definition init (rando : Z) : M unit :=
  let* w := window in
  if dnt w then mret tt
  else
    let* this := get_this in
    if verifyConfig this then
      if negb (isVariation this w None) then
        let* redirectUrl := generateRedirectUrl None None rando in
        if truthy redirectUrl then
          if negb (strict_eq redirectUrl (JStr noVariationCookieValue)) then
            let* this := get_this in
            Cookies.setItem (id this) (redirectVariation this);;
            navigate (ToString redirectUrl)
          else mret tt
        else
          let* this := get_this in
          Cookies.setItem (id this) (JStr noVariationCookieValue)
      else mret tt
    else mret tt.

(** ** The running example of the specification *)

Definition exp1 : Config :=
  mkConfig (JStr "exp1") (Some [("v=1", JNum 25); ("v=2", JNum 25)]).

Definition page (jar : gmap string string) : World :=
  mkWorld jar "https://www.mozilla.org/firefox/new/" "" None [].

(** The same page with [window._dntEnabled] a function returning [true]. *)
Definition page_dnt (jar : gmap string string) : World :=
  mkWorld jar "https://www.mozilla.org/firefox/new/" "" (Some (JBool true)) [].

(** A valid configuration with a variation switched to 0%. *)
Definition exp_zero : Config :=
  mkConfig (JStr "exp1") (Some [("v=1", JNum 0); ("v=2", JNum 50)]).

(** ** Vocabulary of the statements *)

(** [needle] occurs in [haystack]. *)
Definition occurs (needle haystack : string) : Prop :=
  ∃ before after, haystack = before +:+ needle +:+ after.

(** The numeric values of an object, in order: what lines 57-61 add up. *)
Definition numeric_weights (o : object) : list Z :=
  omap (λ p, match p.2 with JNum n => Some n | _ => None end) o.

Definition sumZ (l : list Z) : Z := foldr Z.add 0 l.

(** A variations object all of whose weights are integers. *)
Definition numeric (weights : list (string * Z)) : object :=
  prod_map (λ v, v) JNum <$> weights.

(** [v] is the first variation, in order, whose cumulative upper bound
    (running total plus its weight) is at least [rando]. *)
Definition first_reaching (rando : Z) (weights : list (string * Z))
    (v : string) : Prop :=
  ∃ before n after,
    weights = before ++ (v, n) :: after
    ∧ rando ≤ sumZ before.*2 + n
    ∧ ∀ i v' n', before !! i = Some (v', n') →
        sumZ (take i before).*2 + n' < rando.

(** The calls of the cookie interface that only read. *)
Definition is_read (e : event) : Prop :=
  match e with
  | HasItem _ | GetItem _ => True
  | SetItem _ _ | Navigate _ => False
  end.

(** The reads of a call of [generateRedirectUrl] that finds a cookie. *)
Definition after_cookie_reads (k : string) (w : World) : World :=
  record (GetItem k) (record (GetItem k) (record (HasItem k) w)).

(** The pieces of [s] between the occurrences of the character [sep]. *)
Fixpoint split_on (sep : ascii) (s : string) (piece : string) : list string :=
  match s with
  | EmptyString => [piece]
  | String c rest =>
      if Ascii.eqb c sep then piece :: split_on sep rest ""
      else split_on sep rest (piece +:+ String c "")
  end.

(** The parameters of a query string, in the words of the specification:
    what stands between the leading ['?'] and the ['&'] that separate one
    parameter from the next. *)
Definition parameters (queryString : string) : list string :=
  match queryString with
  | String "?" rest => split_on "&" rest ""
  | _ => split_on "&" queryString ""
  end.

(** [s] holds a ['?'] or a ['&']. *)
Fixpoint has_separator (s : string) : bool :=
  match s with
  | EmptyString => false
  | String c rest =>
      Ascii.eqb c "?" || Ascii.eqb c "&" || has_separator rest
  end.

(** What a call leaves in [this.redirectVariation] (undefined when the call
    completes abruptly). *)
Definition assigned_variation {A : Type} (r : result (A * state)) : jsval :=
  match r with
  | Normal (_, (this, _)) => redirectVariation this
  | Abrupt _ => JUndefined
  end.

(** The world [w] after the reads [reads]. *)
Definition after_reads (reads : list event) (w : World) : World :=
  {| cookies := cookies w; href := href w; search := search w;
     _dntEnabled := _dntEnabled w; log := log w ++ reads |}.

(** The world after [window.location.href = url]. *)
Definition after_navigate (url : string) (w : World) : World :=
  {| cookies := cookies w; href := url; search := search w;
     _dntEnabled := _dntEnabled w; log := log w ++ [Navigate url] |}.

(** What lines 184-188 append to the url for the token [v]. *)
Definition appended (querystring v : string) : string :=
  if truthy (JStr querystring) then querystring +:+ "&" +:+ v
  else "?" +:+ v.

(** The 100 values line 147 can conjure. *)
Definition draws : list Z := seqZ 1 100.

(** One step of symbolic execution in [M]. *)
Ltac run_M :=
  unfold bind, mbind, M_bind, mret, M_ret, Cookies.hasItem, Cookies.getItem,
    Cookies.setItem, get_variation, build_redirect, set_redirectVariation,
    navigate, emit, throw, window, get_this;
  cbn [fst snd cookies href search _dntEnabled log record id variations
       totalPercentage redirectVariation with_redirectVariation].

(** * Properties *)

(** ** Strings *)

Section Strings.

Lemma prefix_split (p s : string) :
  String.prefix p s = true ↔ ∃ t, s = p +:+ t.
Proof.
  revert p. induction s as [|b s IH]; intros [|a p]; simpl.
  - split; [by exists "" | done].
  - split; [done | by intros [t Ht]].
  - split; [by exists (String b s) | done].
  - destruct (ascii_dec a b) as [->|Hne].
    + rewrite IH. split; intros [t Ht]; exists t; [by rewrite Ht | by injection Ht].
    + split; [done | intros [t Ht]; injection Ht; congruence].
Qed.

Lemma occurs_here (p s : string) : String.prefix p s = true → occurs p s.
Proof. rewrite prefix_split. intros [t ->]. by exists "", t. Qed.

Lemma occurs_cons (p : string) (c : ascii) (s : string) :
  occurs p (String c s) ↔ String.prefix p (String c s) = true ∨ occurs p s.
Proof.
  split.
  - intros [[|c' before] [after H]]; simpl in H.
    + left. apply prefix_split. by exists after.
    + right. injection H as _ H. by exists before, after.
  - intros [H | [before [after ->]]]; [by apply occurs_here |].
    by exists (String c before), after.
Qed.

Lemma occurs_empty (p : string) : occurs p "" ↔ String.prefix p "" = true.
Proof.
  split; [| apply occurs_here].
  intros [[|c before] [after H]]; simpl in H; [| done].
  apply prefix_split. by exists after.
Qed.

(** [indexOf] finds the needle exactly when it occurs. *)
Lemma indexOf_from_found (pos : Z) (haystack needle : string) :
  0 ≤ pos → (indexOf_from pos haystack needle >? -1) = true ↔ occurs needle haystack.
Proof.
  revert pos. induction haystack as [|c rest IH]; intros pos Hpos;
    cbn [indexOf_from].
  - rewrite occurs_empty. destruct (String.prefix needle "").
    + split; [done | intros _; apply Z.gtb_lt; lia].
    + done.
  - rewrite occurs_cons.
    destruct (String.prefix needle (String c rest)) eqn:Hp.
    + split; [by left | intros _; apply Z.gtb_lt; lia].
    + rewrite IH by lia. split; [by right | by intros [?|?]].
Qed.

Lemma indexOf_found (haystack needle : string) :
  (indexOf haystack needle >? -1) = true ↔ occurs needle haystack.
Proof. by apply indexOf_from_found. Qed.

End Strings.

(** ** isVariation *)

Lemma isVariation_loop_iff (queryString : string) (props : object) :
  isVariation_loop queryString props = true ↔
  ∃ v x, (v, x) ∈ props ∧
    (occurs ("?" +:+ v) queryString ∨ occurs ("&" +:+ v) queryString).
Proof.
  induction props as [|[v x] rest IH]; simpl.
  - split; [done | intros (v & x & Hin & _); by apply elem_of_nil in Hin].
  - destruct (_ || _) eqn:Hhit.
    + split; [intros _ | done]. exists v, x. split; [left |].
      apply orb_true_iff in Hhit. by rewrite <- !indexOf_found.
    + rewrite IH. apply orb_false_iff in Hhit as [H1 H2].
      split.
      * intros (v' & x' & Hin & Hocc). exists v', x'. split; [by right | done].
      * intros (v' & x' & Hin & Hocc). apply elem_of_cons in Hin as [Heq | Hin].
        -- injection Heq as -> ->. rewrite <- !indexOf_found in Hocc.
           destruct Hocc; congruence.
        -- by exists v', x'.
Qed.

(** C8, amended. On an instance without a variations object [isVariation]
    answers false. Otherwise it answers true exactly when some configured
    token [v] occurs in the query string in force with ['?'] or ['&']
    immediately before it, wherever that is and whatever follows [v]; the
    query string in force is the argument when it is a non-empty string, and
    [window.location.search] when the argument is missing or empty. A token
    that occurs only without that character before it does not count, and
    with no match the answer is false. *)
Theorem isVariation_after_separator (this : TrafficCopInstance) (w : World)
    (queryString : option string) :
  (variations this = None → isVariation this w queryString = false)
  ∧ ∀ (o : object) (inForce : string),
      variations this = Some o →
      (queryString = Some inForce ∧ inForce ≠ "")
      ∨ ((queryString = None ∨ queryString = Some "")
         ∧ inForce = search w) →
      isVariation this w queryString = true ↔
      ∃ v x sep before after,
        (v, x) ∈ o ∧ (sep = "?" ∨ sep = "&")
        ∧ inForce = before +:+ sep +:+ v +:+ after.
Proof.
  split.
  - intros Hnone. unfold isVariation. by rewrite Hnone.
  - intros o inForce Ho Hforce.
    assert (Hqs : or_else queryString (search w) = inForce).
    { destruct Hforce as [[-> Hne] | [[-> | ->] ->]]; try done.
      cbn. by destruct (String.eqb_spec inForce ""). }
    unfold isVariation. rewrite Hqs, Ho. cbn [enumerate default from_option].
    rewrite isVariation_loop_iff. split.
    + intros (v & x & Hin & [(b & a & H) | (b & a & H)]).
      * exists v, x, "?", b, a. auto.
      * exists v, x, "&", b, a. auto.
    + intros (v & x & sep & b & a & Hin & [-> | ->] & H); exists v, x;
        (split; [done |]); [left | right]; by exists b, a.
Qed.

Lemma isVariation_after_separator_witness :
  isVariation (TrafficCop (Some exp1)) (page ∅) (Some "?a=b&v=2") = true.
Proof.
  apply (proj2 (isVariation_after_separator (TrafficCop (Some exp1)) (page ∅)
                  (Some "?a=b&v=2"))
           [("v=1", JNum 25); ("v=2", JNum 25)] "?a=b&v=2" eq_refl).
  - left. split; [reflexivity | discriminate].
  - exists "v=2", (JNum 25), "&", "?a=b", "".
    split; [apply list_elem_of_further, list_elem_of_here |].
    split; [by right | reflexivity].
Defined.

(** C8 as stated fails. In ['?v=12'] the only parameter is ['v=12'], and in
    ['?next=/a?v=1'] the only parameter is ['next=/a?v=1']: no token of
    [exp1] is a parameter of either, each holds ['v=1'] only as a part of
    another parameter, and [isVariation] answers true on both (line 129
    searches for ['?v=1'] anywhere). *)
Lemma token_inside_another_parameter_counts :
  (enumerate (variations (TrafficCop (Some exp1)))).*1 = ["v=1"; "v=2"]
  ∧ parameters "?v=12" = ["v=12"]
  ∧ isVariation (TrafficCop (Some exp1)) (page ∅) (Some "?v=12") = true
  ∧ parameters "?next=/a?v=1" = ["next=/a?v=1"]
  ∧ isVariation (TrafficCop (Some exp1)) (page ∅) (Some "?next=/a?v=1") = true.
Proof. by vm_compute. Qed.

Example parameters_of_query :
  parameters "?a=b&v=2&c" = ["a=b"; "v=2"; "c"].
Proof. reflexivity. Qed.

Example isVariation_parameter :
  isVariation (TrafficCop (Some exp1)) (page ∅) (Some "?a=b&v=2") = true.
Proof. reflexivity. Qed.

Example isVariation_inside_other_name :
  isVariation (TrafficCop (Some exp1)) (page ∅) (Some "?xv=2") = false.
Proof. reflexivity. Qed.

(** Nothing is asked of the character after the token. *)
Example isVariation_longer_value :
  isVariation (TrafficCop (Some exp1)) (page ∅) (Some "?v=12") = true.
Proof. reflexivity. Qed.

Example isVariation_default_query :
  isVariation (TrafficCop (Some exp1))
    (mkWorld ∅ "https://www.mozilla.org/firefox/new/?v=1" "?v=1" None []) None
  = true.
Proof. reflexivity. Qed.

(** ** The constructor and verifyConfig *)

Lemma tally_sum (props : object) (acc : Z) :
  tally props acc = acc + sumZ (numeric_weights props).
Proof.
  revert acc. induction props as [|[v x] rest IH]; intros acc.
  - cbn. lia.
  - destruct x; cbn; rewrite IH; unfold sumZ, numeric_weights; cbn; lia.
Qed.

Lemma totalPercentage_TrafficCop (config : Config) :
  totalPercentage (TrafficCop (Some config))
  = sumZ (numeric_weights (enumerate (cfg_variations config))).
Proof. cbn. by rewrite tally_sum. Qed.

Lemma numeric_weights_numeric (weights : list (string * Z)) :
  numeric_weights (numeric weights) = weights.*2.
Proof.
  induction weights as [|[v n] rest IH]; [done |].
  cbn. f_equal. apply IH.
Qed.

(** What [verifyConfig] accepts, exactly. *)
Lemma verifyConfig_true_iff (this : TrafficCopInstance) :
  verifyConfig this = true ↔
  (∃ k, id this = JStr k ∧ k ≠ "")
  ∧ totalPercentage this ≠ 0 ∧ totalPercentage this ≤ 100.
Proof.
  unfold verifyConfig. destruct (id this) as [| |b|n|k| |f]; cbn.
  1-4, 6-7: rewrite ?orb_true_r; split; [done | by intros [(k & ? & _) _]].
  destruct (String.eqb_spec k "") as [-> | Hk]; cbn.
  - split; [done | by intros [(k & [= <-] & ?) _]].
  - destruct (Z.eqb_spec (totalPercentage this) 0) as [H0 | H0]; cbn.
    + split; [done | by intros (_ & ? & _)].
    + destruct (Z.gtb_spec (totalPercentage this) 100); split; try done.
      * intros (_ & _ & ?). lia.
      * intros _. split; [by exists k | split; [done | lia]].
Qed.

(** C7, amended. [verifyConfig] answers false whenever the id is missing, not
    a string or the empty string, or the sum of the numeric variation weights
    is exactly 0 or exceeds 100; it answers true when the id is a non-empty
    string and that sum is between 1 and 100 inclusive. *)
Theorem verifyConfig_cases (config : Config) :
  let total := sumZ (numeric_weights (enumerate (cfg_variations config))) in
  ((∀ k, cfg_id config = JStr k → k = "") ∨ total = 0 ∨ 100 < total →
     verifyConfig (TrafficCop (Some config)) = false)
  ∧ ((∃ k, cfg_id config = JStr k ∧ k ≠ "") ∧ 1 ≤ total ≤ 100 →
     verifyConfig (TrafficCop (Some config)) = true).
Proof.
  intros total.
  pose proof (verifyConfig_true_iff (TrafficCop (Some config))) as Hiff.
  rewrite totalPercentage_TrafficCop in Hiff. fold total in Hiff.
  change (id (TrafficCop (Some config))) with (cfg_id config) in Hiff.
  split.
  - intros Hbad. apply not_true_is_false. rewrite Hiff.
    intros ((k & Hid & Hk) & H0 & H100).
    destruct Hbad as [Hbad | [? | ?]]; [| done | lia].
    by apply Hk, Hbad.
  - intros [Hid Htotal]. apply Hiff. split; [done | lia].
Qed.

Lemma verifyConfig_cases_witness :
  verifyConfig (TrafficCop (Some exp1)) = true.
Proof.
  apply (proj2 (verifyConfig_cases exp1)). split.
  - exists "exp1". split; [reflexivity | discriminate].
  - vm_compute. split; discriminate.
Defined.

(** C7 as stated fails twice. The empty string is a string and the weights
    sum to 50, yet [verifyConfig] answers false (line 108, [!this.id]). A
    total of -5 is not greater than 0, yet [verifyConfig] answers true: line
    113 compares the total with 0 by [===] only, against the comment above
    it. *)
Lemma verifyConfig_empty_id_and_negative_total :
  (typeof (JStr "") = "string"
   ∧ sumZ (numeric_weights [("v=1", JNum 50)]) = 50
   ∧ verifyConfig (TrafficCop (Some (mkConfig (JStr "") (Some [("v=1", JNum 50)]))))
     = false)
  ∧ (sumZ (numeric_weights [("v=1", JNum (-5))]) = -5
     ∧ verifyConfig
         (TrafficCop (Some (mkConfig (JStr "exp1") (Some [("v=1", JNum (-5))]))))
       = true).
Proof. by vm_compute. Qed.

Example verifyConfig_not_an_object : verifyConfig (TrafficCop None) = false.
Proof. reflexivity. Qed.

(** A valid configuration has a variations object. *)
Lemma valid_has_variations (config : Config) :
  verifyConfig (TrafficCop (Some config)) = true →
  ∃ o, cfg_variations config = Some o.
Proof.
  rewrite verifyConfig_true_iff. intros (_ & H0 & _).
  destruct (cfg_variations config) as [o|] eqn:Ho; [by exists o |].
  cbn in H0. rewrite Ho in H0. done.
Qed.

(** ** generateRedirectUrl: its two branches *)

Section Branches.

Context (this : TrafficCopInstance) (w : World) (k : string).
Context (url querystring : option string) (rando : Z).
Hypothesis Hid : id this = JStr k.

Let u : string := or_else url (href w).
Let q : string := or_else querystring (search w).

(** No cookie: lines 163-180, then 183-191. *)
Lemma generateRedirectUrl_no_cookie :
  cookies w !! k = None →
  generateRedirectUrl url querystring rando (this, w) =
    if rando <=? totalPercentage this then
      match assign_loop rando (enumerate (variations this)) (Finite 0) with
      | Normal (Some v) =>
          Normal (redirect_of u q (JStr v),
                  (with_redirectVariation this (JStr v), record (HasItem k) w))
      | Normal None =>
          Normal (redirect_of u q (redirectVariation this),
                  (this, record (HasItem k) w))
      | Abrupt e => Abrupt e
      end
    else Normal (redirect_of u q (redirectVariation this),
                 (this, record (HasItem k) w)).
Proof.
  intros Hnone. unfold generateRedirectUrl.
  repeat (progress (run_M; rewrite ?Hid, ?Hnone)).
  rewrite bool_decide_eq_false_2 by (by intros [? ?]).
  destruct (rando <=? totalPercentage this); [| done].
  by destruct (assign_loop _ _ _) as [[v|]|e].
Qed.

(** A cookie [c] is stored: lines 154-162, then 183-191. *)
Lemma generateRedirectUrl_cookie (o : object) (c : string) :
  variations this = Some o →
  cookies w !! k = Some c →
  generateRedirectUrl url querystring rando (this, w) =
    if truthy (get o c) then
      Normal (redirect_of u q (JStr c),
              (with_redirectVariation this (JStr c), after_cookie_reads k w))
    else if strict_eq (JStr c) (JStr noVariationCookieValue) then
      Normal (JStr noVariationCookieValue, (this, after_cookie_reads k w))
    else
      Normal (redirect_of u q (redirectVariation this),
              (this, after_cookie_reads k w)).
Proof.
  intros Ho Hc. unfold generateRedirectUrl.
  repeat (progress (run_M; rewrite ?Hid, ?Hc, ?Ho; cbn [from_option ToString])).
  rewrite bool_decide_eq_true_2 by eauto.
  repeat (progress (run_M; rewrite ?Hid, ?Hc, ?Ho; cbn [from_option ToString])).
  destruct (truthy (get o c)).
  - by repeat (progress (run_M; rewrite ?Hc; cbn [from_option])).
  - repeat (progress (run_M; rewrite ?Hc; cbn [from_option])).
    by destruct (strict_eq _ _).
Qed.

End Branches.

(** ** The walk over the variations *)

Lemma assign_loop_numeric (rando : Z) (weights : list (string * Z)) (acc : Z) :
  acc < rando → rando ≤ acc + sumZ weights.*2 →
  ∃ before v n after,
    weights = before ++ (v, n) :: after
    ∧ rando ≤ acc + sumZ before.*2 + n
    ∧ (∀ i v' n', before !! i = Some (v', n') →
         acc + sumZ (take i before).*2 + n' < rando)
    ∧ assign_loop rando (numeric weights) (Finite acc) = Normal (Some v).
Proof.
  unfold sumZ.
  revert acc. induction weights as [|[v n] rest IH]; intros acc Hlo Hhi.
  - cbn in Hhi. lia.
  - cbn [numeric fmap list_fmap prod_map fst snd assign_loop ToNumber plus at_most].
    destruct (Z.leb_spec rando (n + acc)) as [Hle | Hgt].
    + exists [], v, n, rest. cbn. split; [done |]. split; [lia |].
      split; [| done]. intros i v' n' Hi. by destruct i.
    + destruct (IH (acc + n)) as (before & v0 & n0 & after & -> & Hb & Hfirst & Hrun).
      { lia. }
      { cbn in Hhi. lia. }
      exists ((v, n) :: before), v0, n0, after. cbn.
      split; [done |]. split; [lia |]. split; [| exact Hrun].
      intros [|i] v' n' Hi; cbn in *.
      * injection Hi as <- <-. lia.
      * specialize (Hfirst i v' n' Hi). lia.
Qed.

Lemma first_reaching_of_walk (rando : Z) (weights : list (string * Z)) :
  0 < rando → rando ≤ sumZ weights.*2 →
  ∃ v, first_reaching rando weights v
       ∧ assign_loop rando (numeric weights) (Finite 0) = Normal (Some v).
Proof.
  intros Hlo Hhi.
  destruct (assign_loop_numeric rando weights 0) as
    (before & v & n & after & Heq & Hb & Hfirst & Hrun); [lia | lia |].
  exists v. split; [| done]. exists before, n, after.
  split; [done |]. split; [lia |].
  intros i v' n' Hi. specialize (Hfirst i v' n' Hi). lia.
Qed.

(** ** Fresh assignment *)

(** *** The object of a literal with integer weights *)

Section LiteralMap.

Context {A B : Type} (f : A → B).

Let g : string * A → string * B := prod_map (λ k, k) f.

Lemma set_property_fmap (o : list (string * A)) (k : string) (x : A) :
  set_property (g <$> o) k (f x) = g <$> set_property o k x.
Proof.
  induction o as [|[k' y] rest IH]; [done |].
  cbn. destruct (String.eqb k' k); [done |]. cbn. by rewrite IH.
Qed.

Lemma created_fmap (entries acc : list (string * A)) :
  foldl (λ o p, set_property o p.1 p.2) (g <$> acc) (g <$> entries)
  = g <$> foldl (λ o p, set_property o p.1 p.2) acc entries.
Proof.
  revert acc. induction entries as [|[k x] rest IH]; intros acc; [done |].
  cbn. rewrite set_property_fmap. apply IH.
Qed.

Lemma insert_index_fmap (n : N) (p : string * A)
    (sorted : list (N * (string * A))) :
  insert_index n (g p) (prod_map (λ m, m) g <$> sorted)
  = prod_map (λ m, m) g <$> insert_index n p sorted.
Proof.
  induction sorted as [|[m q] rest IH]; [done |].
  cbn. destruct (n <? m)%N; [done |]. cbn. by rewrite IH.
Qed.

Lemma index_properties_fmap (o : list (string * A)) :
  index_properties (g <$> o) = prod_map (λ m, m) g <$> index_properties o.
Proof.
  induction o as [|[k x] rest IH]; [done |].
  cbn. destruct (array_index k); [| done].
  rewrite IH. apply (insert_index_fmap _ (k, x)).
Qed.

Lemma named_properties_fmap (o : list (string * A)) :
  named_properties (g <$> o) = g <$> named_properties o.
Proof.
  induction o as [|[k x] rest IH]; [done |].
  cbn. destruct (array_index k); [done |]. cbn. by rewrite IH.
Qed.

Lemma object_literal_fmap (entries : list (string * A)) :
  object_literal (g <$> entries) = g <$> object_literal entries.
Proof.
  unfold object_literal.
  pose proof (created_fmap entries []) as Hcreated.
  change (g <$> []) with (@nil (string * B)) in Hcreated. rewrite Hcreated.
  rewrite index_properties_fmap, named_properties_fmap, fmap_app. f_equal.
  rewrite <- !list_fmap_compose. by apply list_fmap_ext; intros ? [m q].
Qed.

End LiteralMap.

Lemma object_literal_numeric (entries : list (string * Z)) :
  object_literal (numeric entries) = numeric (object_literal entries).
Proof. apply object_literal_fmap. Qed.

(** C4, amended. With a valid configuration whose variations literal lists
    [entries], all with integer weights, no cookie under the id and a draw
    [rando] in [1,100]: when [rando] exceeds [totalPercentage] no variation
    is assigned and no redirect URL is produced; otherwise
    [this.redirectVariation] becomes the first variation, in the order in
    which [for (var v in ...)] visits them (the array-index tokens in
    ascending order, then the other tokens in the order of the literal),
    whose cumulative upper bound is at least [rando], and the redirect is
    built from it. For [exp1], the draw 10 chooses [v=1], the draw 30 chooses
    [v=2] and the draw 80 chooses no variation. *)
Theorem fresh_assignment_in_enumeration_order :
  (∀ (k : string) (entries : list (string * Z)) (w : World)
     (url querystring : option string) (rando : Z),
     let this :=
       TrafficCop (Some (mkConfig (JStr k)
                     (Some (object_literal (numeric entries))))) in
     verifyConfig this = true →
     cookies w !! k = None →
     1 ≤ rando ≤ 100 →
     (totalPercentage this < rando →
        generateRedirectUrl url querystring rando (this, w)
        = Normal (JUndefined, (this, record (HasItem k) w)))
     ∧ (rando ≤ totalPercentage this →
        ∃ v, first_reaching rando (object_literal entries) v
          ∧ generateRedirectUrl url querystring rando (this, w)
            = Normal (redirect_of (or_else url (href w))
                        (or_else querystring (search w)) (JStr v),
                      (with_redirectVariation this (JStr v),
                       record (HasItem k) w))))
  ∧ generateRedirectUrl None None 10 (TrafficCop (Some exp1), page ∅)
    = Normal (JStr "https://www.mozilla.org/firefox/new/?v=1",
              (with_redirectVariation (TrafficCop (Some exp1)) (JStr "v=1"),
               record (HasItem "exp1") (page ∅)))
  ∧ generateRedirectUrl None None 30 (TrafficCop (Some exp1), page ∅)
    = Normal (JStr "https://www.mozilla.org/firefox/new/?v=2",
              (with_redirectVariation (TrafficCop (Some exp1)) (JStr "v=2"),
               record (HasItem "exp1") (page ∅)))
  ∧ generateRedirectUrl None None 80 (TrafficCop (Some exp1), page ∅)
    = Normal (JUndefined, (TrafficCop (Some exp1), record (HasItem "exp1") (page ∅))).
Proof.
  split; [| by vm_compute].
  intros k entries w url querystring rando this.
  unfold this. clear this. rewrite object_literal_numeric.
  set (weights := object_literal entries).
  set (this := TrafficCop _). intros Hvalid Hnone Hrando.
  assert (Htotal : totalPercentage this = sumZ weights.*2).
  { unfold this. rewrite totalPercentage_TrafficCop.
    change (sumZ (numeric_weights (numeric weights)) = sumZ weights.*2).
    by rewrite numeric_weights_numeric. }
  rewrite (generateRedirectUrl_no_cookie this w k) by done.
  split.
  - intros Hgt. by rewrite (proj2 (Z.leb_gt _ _)) by lia.
  - intros Hle. rewrite (proj2 (Z.leb_le _ _)) by lia.
    destruct (first_reaching_of_walk rando weights) as (v & Hfirst & Hrun);
      [lia | lia |].
    exists v. split; [done |].
    change (enumerate (variations this)) with (numeric weights).
    by rewrite Hrun.
Qed.

Lemma fresh_assignment_in_enumeration_order_witness :
  ∃ v, first_reaching 10 (object_literal [("b", 25); ("1", 25)]) v
    ∧ generateRedirectUrl None None 10
        (TrafficCop (Some (mkConfig (JStr "exp1")
           (Some (object_literal (numeric [("b", 25); ("1", 25)]))))), page ∅)
      = Normal (redirect_of "https://www.mozilla.org/firefox/new/" "" (JStr v),
                (with_redirectVariation
                   (TrafficCop (Some (mkConfig (JStr "exp1")
                      (Some (object_literal (numeric [("b", 25); ("1", 25)]))))))
                   (JStr v),
                 record (HasItem "exp1") (page ∅))).
Proof.
  apply (proj1 fresh_assignment_in_enumeration_order "exp1"
           [("b", 25); ("1", 25)] (page ∅) None None 10);
    [reflexivity | reflexivity | lia | vm_compute; discriminate].
Defined.

(** C4 as stated fails, in two ways. The literal [{b: 25, 1: 25}] lists ['b']
    first, and ['b'] is the first token in the order of the literal whose
    cumulative bound reaches the draw 10, yet the loop visits the array index
    ['1'] first and assigns it. And the configuration
    [{'v=0': undefined, 'v=1': 50}] verifies with total 50, yet for the draw
    10 the sum of line 171 is NaN from the first step on and no variation is
    assigned. *)
Lemma literal_order_and_coercion_mislead :
  (verifyConfig
     (TrafficCop (Some (mkConfig (JStr "exp1")
        (Some (object_literal [("b", JNum 25); ("1", JNum 25)]))))) = true
   ∧ first_reaching 10 [("b", 25); ("1", 25)] "b"
   ∧ generateRedirectUrl None None 10
       (TrafficCop (Some (mkConfig (JStr "exp1")
          (Some (object_literal [("b", JNum 25); ("1", JNum 25)])))), page ∅)
     = Normal (JStr "https://www.mozilla.org/firefox/new/?1",
               (with_redirectVariation
                  (TrafficCop (Some (mkConfig (JStr "exp1")
                     (Some (object_literal [("b", JNum 25); ("1", JNum 25)])))))
                  (JStr "1"),
                record (HasItem "exp1") (page ∅))))
  ∧ (verifyConfig
       (TrafficCop (Some (mkConfig (JStr "exp1")
          (Some [("v=0", JUndefined); ("v=1", JNum 50)])))) = true
     ∧ totalPercentage
         (TrafficCop (Some (mkConfig (JStr "exp1")
            (Some [("v=0", JUndefined); ("v=1", JNum 50)])))) = 50
     ∧ generateRedirectUrl None None 10
         (TrafficCop (Some (mkConfig (JStr "exp1")
            (Some [("v=0", JUndefined); ("v=1", JNum 50)]))), page ∅)
       = Normal (JUndefined,
                 (TrafficCop (Some (mkConfig (JStr "exp1")
                    (Some [("v=0", JUndefined); ("v=1", JNum 50)]))),
                  record (HasItem "exp1") (page ∅)))).
Proof.
  split; [split; [by vm_compute | split; [| by vm_compute]] | by vm_compute].
  exists [], 25, [("1", 25)]. split; [done |]. split; [cbn; lia |].
  intros i v' n' Hi. by destruct i.
Qed.

Example object_literal_order :
  object_literal [("b", 25); ("10", 1); ("a", 2); ("9", 3); ("01", 4); ("b", 5)]
  = [("9", 3); ("10", 1); ("b", 5); ("a", 2); ("01", 4)].
Proof. reflexivity. Qed.

(** ** Returning visitors *)

(** C5, amended. When the cookie under the id holds a non-empty value [c]
    that is a key of [variations] with a truthy (non-zero) weight,
    [generateRedirectUrl] adopts [c] and returns the redirect URL ending in
    [c], the same for every draw. *)
Theorem variation_cookie_is_sticky (config : Config) (k c : string) (w : World)
    (url querystring : option string) (rando : Z) :
  let this := TrafficCop (Some config) in
  let u := or_else url (href w) in
  let q := or_else querystring (search w) in
  verifyConfig this = true →
  cfg_id config = JStr k →
  cookies w !! k = Some c →
  c ∈ (enumerate (cfg_variations config)).*1 →
  truthy (get (enumerate (cfg_variations config)) c) = true →
  c ≠ "" →
  generateRedirectUrl url querystring rando (this, w)
  = Normal (JStr (if truthy (JStr q) then u +:+ q +:+ "&" +:+ c
                  else u +:+ "?" +:+ c),
            (with_redirectVariation this (JStr c), after_cookie_reads k w)).
Proof.
  intros this u q Hvalid Hid Hc _ Hweight Hne.
  destruct (valid_has_variations config Hvalid) as [o Ho].
  rewrite Ho in Hweight. cbn in Hweight.
  rewrite (generateRedirectUrl_cookie this w k _ _ _ Hid o c Ho Hc), Hweight.
  unfold redirect_of. fold u q.
  assert (Htruthy : truthy (JStr c) = true).
  { cbn. by destruct (String.eqb_spec c ""). }
  rewrite Htruthy. by destruct (truthy (JStr q)).
Qed.

Lemma variation_cookie_is_sticky_witness :
  generateRedirectUrl None None 10
    (TrafficCop (Some exp1), page {["exp1" := "v=2"]})
  = Normal (JStr "https://www.mozilla.org/firefox/new/?v=2",
            (with_redirectVariation (TrafficCop (Some exp1)) (JStr "v=2"),
             after_cookie_reads "exp1" (page {["exp1" := "v=2"]}))).
Proof.
  apply (variation_cookie_is_sticky exp1 "exp1" "v=2" (page {["exp1" := "v=2"]})
           None None 10);
    [reflexivity | reflexivity | reflexivity | | reflexivity | discriminate].
  cbn. apply list_elem_of_further, list_elem_of_here.
Defined.

(** C5 as stated fails: ['v=1'] is a key of [variations], with weight 0, the
    cookie holds it, and no redirect comes back (line 156 tests the weight). *)
Lemma zero_weight_cookie_is_not_adopted :
  verifyConfig (TrafficCop (Some exp_zero)) = true
  ∧ get (enumerate (cfg_variations exp_zero)) "v=1" = JNum 0
  ∧ cookies (page {["exp1" := "v=1"]}) !! "exp1" = Some "v=1"
  ∧ generateRedirectUrl None None 10
      (TrafficCop (Some exp_zero), page {["exp1" := "v=1"]})
    = Normal (JUndefined,
              (TrafficCop (Some exp_zero),
               after_cookie_reads "exp1" (page {["exp1" := "v=1"]}))).
Proof. by vm_compute. Qed.

(** A stored value that line 156 does not accept and that is not the
    sentinel: nothing is assigned and nothing is drawn. Shared by the
    statements on unrecognised and on zero-weight cookies. *)
Lemma unadopted_cookie (config : Config) (k c : string) (w : World)
    (url querystring : option string) (rando : Z) :
  let this := TrafficCop (Some config) in
  verifyConfig this = true →
  cfg_id config = JStr k →
  cookies w !! k = Some c →
  truthy (get (enumerate (cfg_variations config)) c) = false →
  c ≠ noVariationCookieValue →
  generateRedirectUrl url querystring rando (this, w)
  = Normal (JUndefined, (this, after_cookie_reads k w)).
Proof.
  intros this Hvalid Hid Hc Hweight Hne.
  destruct (valid_has_variations config Hvalid) as [o Ho].
  rewrite Ho in Hweight. cbn in Hweight.
  rewrite (generateRedirectUrl_cookie this w k _ _ _ Hid o c Ho Hc), Hweight.
  unfold strict_eq. rewrite bool_decide_eq_false_2 by congruence.
  reflexivity.
Qed.

Lemma get_own_not_key (o : object) (c : string) :
  c ∉ o.*1 → get_own o c = None.
Proof.
  induction o as [|[k' x] rest IH]; [done |].
  cbn. intros Hnot. apply not_elem_of_cons in Hnot as [Hne Hrest].
  destruct (String.eqb_spec k' c); [congruence | by apply IH].
Qed.

Lemma get_own_key (o : object) (c : string) :
  c ∈ o.*1 → ∃ x, get_own o c = Some x.
Proof.
  induction o as [|[k' x] rest IH]; cbn; [by intros ?%elem_of_nil |].
  intros Hin. destruct (String.eqb_spec k' c) as [-> | Hne]; [by exists x |].
  apply IH. by apply elem_of_cons in Hin as [-> | Hin].
Qed.

(** A name that is neither an own property nor an inherited member reads as
    undefined. *)
Lemma get_not_key (o : object) (c : string) :
  c ∉ o.*1 → c ∉ Object_prototype.*1 → get o c = JUndefined.
Proof.
  intros Hown Hinherited. unfold get.
  by rewrite !get_own_not_key.
Qed.

(** C6, amended. When the cookie under the id holds the sentinel, and the
    sentinel is not itself a variation token with a truthy weight,
    [generateRedirectUrl] returns the sentinel for every draw, assigns no
    variation and builds no redirect URL. *)
Theorem sentinel_cookie_is_sticky (config : Config) (k : string) (w : World)
    (url querystring : option string) (rando : Z) :
  let this := TrafficCop (Some config) in
  verifyConfig this = true →
  cfg_id config = JStr k →
  cookies w !! k = Some noVariationCookieValue →
  truthy (get (enumerate (cfg_variations config)) noVariationCookieValue) = false →
  generateRedirectUrl url querystring rando (this, w)
  = Normal (JStr noVariationCookieValue, (this, after_cookie_reads k w)).
Proof.
  intros this Hvalid Hid Hc Hweight.
  destruct (valid_has_variations config Hvalid) as [o Ho].
  rewrite Ho in Hweight. cbn in Hweight.
  by rewrite (generateRedirectUrl_cookie this w k _ _ _ Hid o _ Ho Hc), Hweight.
Qed.

Lemma sentinel_cookie_is_sticky_witness :
  generateRedirectUrl None None 10
    (TrafficCop (Some exp1), page {["exp1" := "novariation"]})
  = Normal (JStr "novariation",
            (TrafficCop (Some exp1),
             after_cookie_reads "exp1" (page {["exp1" := "novariation"]}))).
Proof.
  apply (sentinel_cookie_is_sticky exp1 "exp1"
           (page {["exp1" := "novariation"]}) None None 10); reflexivity.
Defined.

(** C6 as stated fails: the configuration is valid, the cookie holds the
    sentinel, and a redirect URL comes back, because the sentinel is also a
    variation token and line 156 is tested before line 160. *)
Lemma sentinel_named_variation_redirects :
  let config := mkConfig (JStr "exp1") (Some [("novariation", JNum 50)]) in
  verifyConfig (TrafficCop (Some config)) = true
  ∧ cookies (page {["exp1" := "novariation"]}) !! "exp1"
    = Some noVariationCookieValue
  ∧ generateRedirectUrl None None 80
      (TrafficCop (Some config), page {["exp1" := "novariation"]})
    = Normal (JStr "https://www.mozilla.org/firefox/new/?novariation",
              (with_redirectVariation (TrafficCop (Some config)) (JStr "novariation"),
               after_cookie_reads "exp1" (page {["exp1" := "novariation"]}))).
Proof. by vm_compute. Qed.

(** C1, amended. When the cookie under the id holds a value that is neither
    an own key of [variations], nor the name of a member that [variations]
    inherits from [Object.prototype], nor the sentinel, [generateRedirectUrl]
    does not fall through to a fresh assignment: for every draw it reads the
    cookie, assigns no variation and returns undefined. *)
Theorem foreign_cookie_is_not_rerolled (config : Config) (k c : string)
    (w : World) (url querystring : option string) (rando : Z) :
  let this := TrafficCop (Some config) in
  verifyConfig this = true →
  cfg_id config = JStr k →
  cookies w !! k = Some c →
  c ∉ (enumerate (cfg_variations config)).*1 →
  c ∉ Object_prototype.*1 →
  c ≠ noVariationCookieValue →
  generateRedirectUrl url querystring rando (this, w)
  = Normal (JUndefined, (this, after_cookie_reads k w)).
Proof.
  intros this Hvalid Hid Hc Hnot Hinherited Hne.
  apply (unadopted_cookie config k c); try done.
  by rewrite get_not_key.
Qed.

Lemma foreign_cookie_is_not_rerolled_witness :
  generateRedirectUrl None None 10
    (TrafficCop (Some exp1), page {["exp1" := "stale"]})
  = Normal (JUndefined,
            (TrafficCop (Some exp1),
             after_cookie_reads "exp1" (page {["exp1" := "stale"]}))).
Proof.
  apply (foreign_cookie_is_not_rerolled exp1 "exp1" "stale"
           (page {["exp1" := "stale"]}) None None 10);
    [reflexivity | reflexivity | reflexivity | | | discriminate].
  - cbn. rewrite !not_elem_of_cons. repeat split; try discriminate.
    apply not_elem_of_nil.
  - cbn. rewrite !not_elem_of_cons. repeat split; try discriminate.
    apply not_elem_of_nil.
Defined.

(** C1 as stated fails, in two ways. With the stale cookie the draw 10
    assigns nothing, while the same draw without a cookie assigns ['v=1'].
    With a cookie that names an inherited member, ['constructor'], line 156
    finds the function [Object], a truthy value: the cookie is adopted and
    the draw 80 gives a redirect, while without a cookie it gives none. *)
Lemma stale_cookie_blocks_assignment :
  (cookies (page {["exp1" := "stale"]}) !! "exp1" = Some "stale"
   ∧ get (enumerate (cfg_variations exp1)) "stale" = JUndefined
   ∧ generateRedirectUrl None None 10
       (TrafficCop (Some exp1), page {["exp1" := "stale"]})
     = Normal (JUndefined,
               (TrafficCop (Some exp1),
                after_cookie_reads "exp1" (page {["exp1" := "stale"]})))
   ∧ generateRedirectUrl None None 10 (TrafficCop (Some exp1), page ∅)
     = Normal (JStr "https://www.mozilla.org/firefox/new/?v=1",
               (with_redirectVariation (TrafficCop (Some exp1)) (JStr "v=1"),
                record (HasItem "exp1") (page ∅))))
  ∧ (cookies (page {["exp1" := "constructor"]}) !! "exp1" = Some "constructor"
     ∧ get_own (enumerate (cfg_variations exp1)) "constructor" = None
     ∧ get (enumerate (cfg_variations exp1)) "constructor" = JFunction "Object"
     ∧ generateRedirectUrl None None 80
         (TrafficCop (Some exp1), page {["exp1" := "constructor"]})
       = Normal (JStr "https://www.mozilla.org/firefox/new/?constructor",
                 (with_redirectVariation (TrafficCop (Some exp1))
                    (JStr "constructor"),
                  after_cookie_reads "exp1" (page {["exp1" := "constructor"]})))
     ∧ generateRedirectUrl None None 80 (TrafficCop (Some exp1), page ∅)
       = Normal (JUndefined,
                 (TrafficCop (Some exp1), record (HasItem "exp1") (page ∅)))).
Proof. by vm_compute. Qed.

(** ** init *)

(** [generateRedirectUrl] keeps the id and touches the world only by reading
    the cookie. *)
Lemma generateRedirectUrl_reads (this this' : TrafficCopInstance) (w w' : World)
    (k : string) (o : object) (url querystring : option string) (rando : Z)
    (r : jsval) :
  id this = JStr k →
  variations this = Some o →
  generateRedirectUrl url querystring rando (this, w) = Normal (r, (this', w')) →
  id this' = id this
  ∧ (w' = record (HasItem k) w ∨ w' = after_cookie_reads k w).
Proof.
  intros Hid Ho. destruct (cookies w !! k) as [c|] eqn:Hc.
  - rewrite (generateRedirectUrl_cookie this w k _ _ _ Hid o c Ho Hc).
    destruct (truthy (get o c)); [| destruct (strict_eq _ _)];
      intros [= _ <- <-]; split; by try right.
  - rewrite (generateRedirectUrl_no_cookie this w k _ _ _ Hid Hc).
    destruct (rando <=? totalPercentage this);
      [destruct (assign_loop _ _ _) as [[v|]|e] |];
      try done; intros [= _ <- <-]; split; by try left.
Qed.

Section Init.

Context (this : TrafficCopInstance) (w : World) (k : string) (o : object).
Context (rando : Z).
Hypothesis Hdnt : dnt w = false.
Hypothesis Hvalid : verifyConfig this = true.
Hypothesis Hpage : isVariation this w None = false.
Hypothesis Hid : id this = JStr k.
Hypothesis Ho : variations this = Some o.

(** Lines 94-98. *)
Lemma init_undefined (this' : TrafficCopInstance) (w' : World) :
  generateRedirectUrl None None rando (this, w) = Normal (JUndefined, (this', w')) →
  init rando (this, w)
  = Normal (tt, (this', after_setItem k noVariationCookieValue w')).
Proof.
  intros Hgen.
  destruct (generateRedirectUrl_reads _ _ _ _ _ _ _ _ _ _ Hid Ho Hgen) as [Hid' _].
  rewrite Hid in Hid'. unfold init.
  repeat (progress (run_M; rewrite ?Hdnt, ?Hvalid, ?Hpage, ?Hgen, ?Hid';
                    cbn [negb truthy])).
  reflexivity.
Qed.

(** Lines 88-93 when the test of line 90 fails. *)
Lemma init_sentinel (this' : TrafficCopInstance) (w' : World) :
  generateRedirectUrl None None rando (this, w)
  = Normal (JStr noVariationCookieValue, (this', w')) →
  init rando (this, w) = Normal (tt, (this', w')).
Proof.
  intros Hgen. unfold init.
  repeat (progress (run_M; rewrite ?Hdnt, ?Hvalid, ?Hpage, ?Hgen; cbn [negb])).
  reflexivity.
Qed.

End Init.

(** C9. When [window._dntEnabled] is a function that returns a truthy value,
    [init] returns at line 77: the instance is unchanged (no assignment) and
    so is the world (no cookie read or write, no navigation). *)
Theorem init_respects_dnt (this : TrafficCopInstance) (w : World) (x : jsval)
    (rando : Z) :
  _dntEnabled w = Some x → truthy x = true →
  init rando (this, w) = Normal (tt, (this, w)).
Proof.
  intros Hfun Htrue. unfold init. run_M. unfold dnt. by rewrite Hfun, Htrue.
Qed.

Lemma init_respects_dnt_witness :
  init 10 (TrafficCop (Some exp1), page_dnt {["exp1" := "v=2"]})
  = Normal (tt, (TrafficCop (Some exp1), page_dnt {["exp1" := "v=2"]})).
Proof.
  apply (init_respects_dnt (TrafficCop (Some exp1))
           (page_dnt {["exp1" := "v=2"]}) (JBool true) 10); reflexivity.
Defined.

Lemma reads_of_generateRedirectUrl (k : string) (w w' : World) :
  w' = record (HasItem k) w ∨ w' = after_cookie_reads k w →
  ∃ reads, Forall is_read reads
    ∧ cookies w' = cookies w ∧ href w' = href w ∧ search w' = search w
    ∧ _dntEnabled w' = _dntEnabled w ∧ log w' = log w ++ reads.
Proof.
  intros [-> | ->].
  - exists [HasItem k]. repeat split. by repeat constructor.
  - exists [HasItem k; GetItem k; GetItem k]. repeat split.
    + by repeat constructor.
    + cbn. by rewrite <- !app_assoc.
Qed.

(** C2, amended. On a load with a valid configuration, DNT off and a page
    that is not a variation, when [generateRedirectUrl] returns undefined,
    [init] stores the sentinel under the id (one [setItem] call, after the
    reads of [generateRedirectUrl]) and does not navigate. *)
Theorem init_undefined_persists_sentinel (config : Config) (k : string)
    (w : World) (rando : Z) (this' : TrafficCopInstance) (w' : World) :
  let this := TrafficCop (Some config) in
  verifyConfig this = true →
  cfg_id config = JStr k →
  dnt w = false →
  isVariation this w None = false →
  generateRedirectUrl None None rando (this, w) = Normal (JUndefined, (this', w')) →
  ∃ reads, Forall is_read reads ∧
    init rando (this, w)
    = Normal (tt, (this',
        {| cookies := <[k := noVariationCookieValue]> (cookies w);
           href := href w; search := search w; _dntEnabled := _dntEnabled w;
           log := log w ++ reads ++ [SetItem k noVariationCookieValue] |})).
Proof.
  intros this Hvalid Hid Hdnt Hpage Hgen.
  destruct (valid_has_variations config Hvalid) as [o Ho].
  destruct (reads_of_generateRedirectUrl k w w') as
    (reads & Hreads & Hc & Hh & Hs & Hd & Hl).
  { by eapply (generateRedirectUrl_reads this). }
  exists reads. split; [done |].
  rewrite (init_undefined this w k o rando Hdnt Hvalid Hpage Hid Ho this' w' Hgen).
  unfold after_setItem. by rewrite Hc, Hh, Hs, Hd, Hl, <- app_assoc.
Qed.

Lemma init_undefined_persists_sentinel_witness :
  ∃ reads, Forall is_read reads ∧
    init 80 (TrafficCop (Some exp1), page ∅)
    = Normal (tt, (TrafficCop (Some exp1),
        {| cookies := <["exp1" := noVariationCookieValue]> ∅;
           href := "https://www.mozilla.org/firefox/new/"; search := "";
           _dntEnabled := None;
           log := [] ++ reads ++ [SetItem "exp1" noVariationCookieValue] |})).
Proof.
  apply (init_undefined_persists_sentinel exp1 "exp1" (page ∅) 80
           (TrafficCop (Some exp1)) (record (HasItem "exp1") (page ∅)));
    reflexivity.
Defined.

(** C2 as stated fails: the draw 80 makes [generateRedirectUrl] return
    undefined, and [init] then calls [setItem] (line 97). *)
Lemma init_writes_on_undefined :
  verifyConfig (TrafficCop (Some exp1)) = true
  ∧ dnt (page ∅) = false
  ∧ isVariation (TrafficCop (Some exp1)) (page ∅) None = false
  ∧ generateRedirectUrl None None 80 (TrafficCop (Some exp1), page ∅)
    = Normal (JUndefined, (TrafficCop (Some exp1), record (HasItem "exp1") (page ∅)))
  ∧ init 80 (TrafficCop (Some exp1), page ∅)
    = Normal (tt, (TrafficCop (Some exp1),
        mkWorld {["exp1" := "novariation"]} "https://www.mozilla.org/firefox/new/"
          "" None [HasItem "exp1"; SetItem "exp1" "novariation"])).
Proof. by vm_compute. Qed.

(** C3, amended. On a load with a valid configuration, DNT off and a page
    that is not a variation, when [generateRedirectUrl] returns the sentinel,
    [init] writes no cookie and does not navigate: the cookie jar and the
    location are as before and the log grows by reads only. *)
Theorem init_sentinel_writes_nothing (config : Config) (k : string)
    (w : World) (rando : Z) (this' : TrafficCopInstance) (w' : World) :
  let this := TrafficCop (Some config) in
  verifyConfig this = true →
  cfg_id config = JStr k →
  dnt w = false →
  isVariation this w None = false →
  generateRedirectUrl None None rando (this, w)
  = Normal (JStr noVariationCookieValue, (this', w')) →
  ∃ reads, Forall is_read reads ∧
    init rando (this, w)
    = Normal (tt, (this',
        {| cookies := cookies w; href := href w; search := search w;
           _dntEnabled := _dntEnabled w; log := log w ++ reads |})).
Proof.
  intros this Hvalid Hid Hdnt Hpage Hgen.
  destruct (valid_has_variations config Hvalid) as [o Ho].
  destruct (reads_of_generateRedirectUrl k w w') as
    (reads & Hreads & Hc & Hh & Hs & Hd & Hl).
  { by eapply (generateRedirectUrl_reads this). }
  exists reads. split; [done |].
  rewrite (init_sentinel this w rando Hdnt Hvalid Hpage this' w' Hgen).
  rewrite <- Hc, <- Hh, <- Hs, <- Hd, <- Hl. by destruct w'.
Qed.

Lemma init_sentinel_writes_nothing_witness :
  ∃ reads, Forall is_read reads ∧
    init 80 (TrafficCop (Some exp1), page {["exp1" := "novariation"]})
    = Normal (tt, (TrafficCop (Some exp1),
        {| cookies := {["exp1" := "novariation"]};
           href := "https://www.mozilla.org/firefox/new/"; search := "";
           _dntEnabled := None; log := [] ++ reads |})).
Proof.
  exact (init_sentinel_writes_nothing exp1 "exp1"
           (page {["exp1" := "novariation"]}) 80 (TrafficCop (Some exp1))
           (after_cookie_reads "exp1" (page {["exp1" := "novariation"]}))
           eq_refl eq_refl eq_refl eq_refl eq_refl).
Defined.

(** C3 as stated fails: [generateRedirectUrl] returns the sentinel and the
    log of [init] holds the three reads and no [SetItem] (lines 88-93). *)
Lemma init_skips_write_on_sentinel :
  let w := page {["exp1" := "novariation"]} in
  verifyConfig (TrafficCop (Some exp1)) = true
  ∧ dnt w = false
  ∧ isVariation (TrafficCop (Some exp1)) w None = false
  ∧ generateRedirectUrl None None 80 (TrafficCop (Some exp1), w)
    = Normal (JStr noVariationCookieValue,
              (TrafficCop (Some exp1), after_cookie_reads "exp1" w))
  ∧ init 80 (TrafficCop (Some exp1), w)
    = Normal (tt, (TrafficCop (Some exp1),
        mkWorld {["exp1" := "novariation"]} "https://www.mozilla.org/firefox/new/"
          "" None [HasItem "exp1"; GetItem "exp1"; GetItem "exp1"])).
Proof. by vm_compute. Qed.

(** C10, amended. For a valid configuration that maps a token [t] other than
    the sentinel to a falsy weight (0, and also null, undefined, false or the
    empty string), when the cookie under the id holds [t]:
    [generateRedirectUrl] neither adopts [t] nor draws, and returns undefined
    for every draw; on a load with DNT off and a page that is not a variation
    [init] then overwrites the cookie with the sentinel. *)
Theorem falsy_weight_cookie_is_dropped (config : Config) (k t : string)
    (w : World) :
  let this := TrafficCop (Some config) in
  verifyConfig this = true →
  cfg_id config = JStr k →
  t ∈ (enumerate (cfg_variations config)).*1 →
  truthy (get (enumerate (cfg_variations config)) t) = false →
  t ≠ noVariationCookieValue →
  cookies w !! k = Some t →
  (∀ url querystring rando,
     generateRedirectUrl url querystring rando (this, w)
     = Normal (JUndefined, (this, after_cookie_reads k w)))
  ∧ (dnt w = false → isVariation this w None = false →
     ∀ rando,
       let w' := after_setItem k noVariationCookieValue (after_cookie_reads k w) in
       init rando (this, w) = Normal (tt, (this, w'))
       ∧ cookies w' !! k = Some noVariationCookieValue
       ∧ href w' = href w).
Proof.
  intros this Hvalid Hid _ Hweight Hne Hc.
  assert (Hgen : ∀ url querystring rando,
    generateRedirectUrl url querystring rando (this, w)
    = Normal (JUndefined, (this, after_cookie_reads k w))).
  { intros. by apply (unadopted_cookie config k t). }
  split; [exact Hgen |].
  intros Hdnt Hpage rando w'. split; [| split].
  - destruct (valid_has_variations config Hvalid) as [o Ho].
    by apply (init_undefined this w k o).
  - apply lookup_insert_eq.
  - reflexivity.
Qed.

Lemma falsy_weight_cookie_is_dropped_witness :
  init 10 (TrafficCop (Some exp_zero), page {["exp1" := "v=1"]})
  = Normal (tt, (TrafficCop (Some exp_zero),
                 after_setItem "exp1" noVariationCookieValue
                   (after_cookie_reads "exp1" (page {["exp1" := "v=1"]})))).
Proof.
  refine (proj1 (proj2 (falsy_weight_cookie_is_dropped exp_zero "exp1" "v=1"
            (page {["exp1" := "v=1"]}) eq_refl eq_refl _ eq_refl _ eq_refl)
            eq_refl eq_refl 10)).
  - apply list_elem_of_here.
  - discriminate.
Defined.

(** C10 as stated fails: the token with weight 0 is the sentinel string
    itself; [generateRedirectUrl] returns the sentinel, not undefined
    (line 160), and [init] writes nothing. *)
Lemma zero_weight_sentinel_token_is_kept :
  let config :=
    mkConfig (JStr "exp1") (Some [("novariation", JNum 0); ("v=1", JNum 50)]) in
  let w := page {["exp1" := "novariation"]} in
  verifyConfig (TrafficCop (Some config)) = true
  ∧ get (enumerate (cfg_variations config)) "novariation" = JNum 0
  ∧ cookies w !! "exp1" = Some "novariation"
  ∧ generateRedirectUrl None None 10 (TrafficCop (Some config), w)
    = Normal (JStr noVariationCookieValue,
              (TrafficCop (Some config), after_cookie_reads "exp1" w))
  ∧ init 10 (TrafficCop (Some config), w)
    = Normal (tt, (TrafficCop (Some config),
        mkWorld {["exp1" := "novariation"]} "https://www.mozilla.org/firefox/new/"
          "" None [HasItem "exp1"; GetItem "exp1"; GetItem "exp1"])).
Proof. by vm_compute. Qed.

(** The ordinary zero-weight case of C10 on a concrete load. *)
Example zero_weight_cookie_overwritten :
  init 10 (TrafficCop (Some exp_zero), page {["exp1" := "v=1"]})
  = Normal (tt, (TrafficCop (Some exp_zero),
      mkWorld {["exp1" := "novariation"]} "https://www.mozilla.org/firefox/new/"
        "" None [HasItem "exp1"; GetItem "exp1"; GetItem "exp1";
                 SetItem "exp1" "novariation"])).
Proof. by vm_compute. Qed.

(** The path of lines 88-93 that navigates, on the running example. *)
Example init_redirects :
  init 10 (TrafficCop (Some exp1), page ∅)
  = Normal (tt, (with_redirectVariation (TrafficCop (Some exp1)) (JStr "v=1"),
      mkWorld {["exp1" := "v=1"]} "https://www.mozilla.org/firefox/new/?v=1"
        "" None [HasItem "exp1"; SetItem "exp1" "v=1";
                 Navigate "https://www.mozilla.org/firefox/new/?v=1"])).
Proof. by vm_compute. Qed.

(** * Further properties of the code *)

(** ** The constructor *)

Lemma tally_skips (o others : object) (acc : Z) :
  Forall (λ p, typeof p.2 ≠ "number") others →
  tally (o ++ others) acc = tally o acc.
Proof.
  intros Hothers. rewrite !tally_sum. f_equal.
  unfold numeric_weights. rewrite omap_app.
  assert (Hnone : omap (λ p : string * jsval,
            match p.2 with JNum n => Some n | _ => None end) others = []).
  { induction Hothers as [|[v x] rest Hx _ IH]; [done |].
    cbn. destruct x; cbn in *; try done. }
  rewrite Hnone. by rewrite app_nil_r.
Qed.

Lemma construct_plain (c : Config) :
  get_own (enumerate (cfg_variations c)) "hasOwnProperty" = None →
  construct (ArgObject c) = Normal (TrafficCop (Some c)).
Proof. intros Hown. unfold construct. by rewrite Hown. Qed.

(** Lines 39-64. [new Mozilla.TrafficCop(null)] throws a TypeError, since
    line 43 takes [null] for an object and line 46 reads its [id]; so does a
    configuration whose variations have an own property [hasOwnProperty]
    that is not a function (line 58 calls it). Any other argument that is
    not an object gives an instance that never verifies. For a configuration
    whose variations have no own property of that name the constructor
    returns, and [totalPercentage] is the sum of the values of type number:
    entries of any other type (the string ['25'], a boolean, null) add
    nothing to it. *)
Theorem construct_cases :
  construct ArgNull = Abrupt TypeError
  ∧ (∃ this, construct ArgOther = Normal this ∧ verifyConfig this = false)
  ∧ ∀ c : Config,
      (∀ x, get_own (enumerate (cfg_variations c)) "hasOwnProperty" = Some x →
            (∀ name, x ≠ JFunction name) →
            construct (ArgObject c) = Abrupt TypeError)
      ∧ (get_own (enumerate (cfg_variations c)) "hasOwnProperty" = None →
         ∃ this, construct (ArgObject c) = Normal this
           ∧ totalPercentage this
             = sumZ (numeric_weights (enumerate (cfg_variations c)))
           ∧ ∀ others,
               Forall (λ p, typeof p.2 ≠ "number") others →
               get_own (enumerate (cfg_variations c) ++ others)
                 "hasOwnProperty" = None →
               ∃ this',
                 construct (ArgObject (mkConfig (cfg_id c)
                    (Some (enumerate (cfg_variations c) ++ others))))
                 = Normal this'
                 ∧ totalPercentage this' = totalPercentage this).
Proof.
  split; [done |]. split; [by exists (TrafficCop None) |].
  intros c. split.
  - intros x Hown Hfun. unfold construct. rewrite Hown.
    destruct x as [| |b|n|s| |name]; try done. by destruct (Hfun name).
  - intros Hown. exists (TrafficCop (Some c)).
    split; [by apply construct_plain |]. split.
    + apply totalPercentage_TrafficCop.
    + intros others Hothers Hown'. eexists.
      split; [by apply construct_plain |].
      cbn. by apply tally_skips.
Qed.

Lemma construct_cases_witness :
  ∃ this',
    construct (ArgObject (mkConfig (JStr "exp1")
       (Some ([("v=1", JNum 25); ("v=2", JNum 25)] ++ [("note", JStr "25")]))))
    = Normal this'
    ∧ totalPercentage this' = 50.
Proof.
  destruct (proj2 (proj2 (proj2 construct_cases) exp1) eq_refl)
    as (this & Hthis & Htotal & Hothers).
  injection Hthis as <-.
  apply (Hothers [("note", JStr "25")]); [| reflexivity].
  repeat constructor. discriminate.
Defined.

Example construct_own_hasOwnProperty :
  construct (ArgObject (mkConfig (JStr "exp1")
     (Some [("v=1", JNum 25); ("hasOwnProperty", JNum 25)])))
  = Abrupt TypeError.
Proof. reflexivity. Qed.

(** ** verifyConfig on a constructed instance *)

(** Lines 107-118 after lines 39-64. A constructed instance verifies exactly
    when the argument is an object whose id is a non-empty string and whose
    numeric weights sum to a value other than 0 and at most 100; a negative
    sum is accepted. *)
Theorem verifyConfig_TrafficCop_iff (config : option Config) :
  verifyConfig (TrafficCop config) = true ↔
  ∃ c k, config = Some c
    ∧ cfg_id c = JStr k ∧ k ≠ ""
    ∧ sumZ (numeric_weights (enumerate (cfg_variations c))) ≠ 0
    ∧ sumZ (numeric_weights (enumerate (cfg_variations c))) ≤ 100.
Proof.
  rewrite verifyConfig_true_iff. destruct config as [c|].
  - rewrite totalPercentage_TrafficCop.
    change (id (TrafficCop (Some c))) with (cfg_id c). split.
    + intros ((k & Hid & Hk) & H0 & H100). by exists c, k.
    + intros (c' & k & [= <-] & Hid & Hk & H0 & H100). eauto.
  - split; [by intros ((k & Hid & _) & _) | by intros (c & k & ? & _)].
Qed.

(** ** init: the loads on which nothing happens *)

(** Lines 81 and 100. With a configuration that does not verify, [init]
    leaves the instance and the world as they are: no cookie is read or
    written and the page does not navigate. *)
Theorem init_invalid_config_is_inert (this : TrafficCopInstance) (w : World)
    (rando : Z) :
  verifyConfig this = false → init rando (this, w) = Normal (tt, (this, w)).
Proof.
  intros Hinvalid. unfold init. run_M. destruct (dnt w); [done |].
  run_M. by rewrite Hinvalid.
Qed.

Lemma init_invalid_config_is_inert_witness :
  init 10 (TrafficCop None, page {["exp1" := "v=1"]})
  = Normal (tt, (TrafficCop None, page {["exp1" := "v=1"]})).
Proof. apply init_invalid_config_is_inert. reflexivity. Defined.

(** Lines 84 and 99. On a page that already shows a variation, [init]
    leaves the instance and the world as they are, whatever the cookie and
    the draw. *)
Theorem init_on_variation_page_is_inert (this : TrafficCopInstance) (w : World)
    (rando : Z) :
  isVariation this w None = true → init rando (this, w) = Normal (tt, (this, w)).
Proof.
  intros Hpage. unfold init. run_M. destruct (dnt w); [done |].
  run_M. destruct (verifyConfig this); [| done]. by rewrite Hpage.
Qed.

Lemma init_on_variation_page_is_inert_witness :
  init 10 (TrafficCop (Some exp1),
           mkWorld ∅ "https://www.mozilla.org/firefox/new/?v=2" "?v=2" None [])
  = Normal (tt, (TrafficCop (Some exp1),
           mkWorld ∅ "https://www.mozilla.org/firefox/new/?v=2" "?v=2" None [])).
Proof. apply init_on_variation_page_is_inert. reflexivity. Defined.

(** ** isVariation: what it looks at *)

Lemma isVariation_loop_keys (queryString : string) (o o' : object) :
  o.*1 = o'.*1 →
  isVariation_loop queryString o = isVariation_loop queryString o'.
Proof.
  revert o'. induction o as [|[v x] rest IH]; intros [|[v' x'] rest'] Hkeys;
    try done.
  cbn in Hkeys. injection Hkeys as <- Hrest. cbn. by rewrite (IH rest').
Qed.

(** Lines 128-133. The answer of [isVariation] depends on the property names
    of [variations] only: a token with weight 0, or with a value that is not
    a number, counts like any other. *)
Theorem isVariation_keys_only (this this' : TrafficCopInstance) (w : World)
    (queryString : option string) :
  (enumerate (variations this)).*1 = (enumerate (variations this')).*1 →
  isVariation this w queryString = isVariation this' w queryString.
Proof. intros Hkeys. unfold isVariation. by apply isVariation_loop_keys. Qed.

Lemma isVariation_keys_only_witness :
  isVariation (TrafficCop (Some exp1)) (page ∅) (Some "?v=1")
  = isVariation
      (TrafficCop (Some (mkConfig JUndefined
         (Some [("v=1", JNum 0); ("v=2", JStr "half")]))))
      (page ∅) (Some "?v=1").
Proof. apply isVariation_keys_only. reflexivity. Defined.

Lemma has_separator_app (a b : string) :
  has_separator (a +:+ b) = has_separator a || has_separator b.
Proof.
  induction a as [|c a IH]; [done |].
  change (String c a +:+ b) with (String c (a +:+ b)).
  cbn [has_separator]. rewrite IH. by rewrite !orb_assoc.
Qed.

Lemma has_separator_occurs (sep v s : string) :
  sep = "?" ∨ sep = "&" → occurs (sep +:+ v) s → has_separator s = true.
Proof.
  intros Hsep (before & after & ->). rewrite !has_separator_app.
  destruct Hsep as [-> | ->]; cbn; by rewrite orb_true_r.
Qed.

(** Lines 125-133. When the query string in force (the argument, or
    [window.location.search]) holds neither ['?'] nor ['&'], in particular
    when it is empty, [isVariation] answers false for every configuration. *)
Theorem isVariation_without_separator (this : TrafficCopInstance) (w : World)
    (queryString : option string) :
  has_separator (or_else queryString (search w)) = false →
  isVariation this w queryString = false.
Proof.
  intros Hnone. apply not_true_is_false. unfold isVariation.
  rewrite isVariation_loop_iff. intros (v & x & _ & [Hocc | Hocc]).
  - by rewrite (has_separator_occurs "?" v _ (or_introl eq_refl) Hocc) in Hnone.
  - by rewrite (has_separator_occurs "&" v _ (or_intror eq_refl) Hocc) in Hnone.
Qed.

Lemma isVariation_without_separator_witness :
  isVariation (TrafficCop (Some exp1)) (page ∅) (Some "v=1") = false.
Proof. apply isVariation_without_separator. reflexivity. Defined.

(** ** generateRedirectUrl: what it can do to its surroundings *)

(** Line 156 on an instance without a variations object. *)
Lemma generateRedirectUrl_no_variations (this : TrafficCopInstance) (w : World)
    (k c : string) (url querystring : option string) (rando : Z) :
  id this = JStr k →
  variations this = None →
  cookies w !! k = Some c →
  generateRedirectUrl url querystring rando (this, w) = Abrupt TypeError.
Proof.
  intros Hid Ho Hc. unfold generateRedirectUrl.
  repeat (progress (run_M; rewrite ?Hid, ?Hc, ?Ho; cbn [from_option ToString])).
  rewrite bool_decide_eq_true_2 by eauto.
  by repeat (progress (run_M; rewrite ?Hid, ?Hc, ?Ho; cbn [from_option ToString])).
Qed.

Lemma generateRedirectUrl_bad_id (this : TrafficCopInstance) (w : World)
    (url querystring : option string) (rando : Z) :
  (∀ k, id this ≠ JStr k) →
  generateRedirectUrl url querystring rando (this, w) = Abrupt Unmodelled.
Proof.
  intros Hid. unfold generateRedirectUrl. run_M.
  destruct (id this) as [| |b|n|k| |f]; try done. by destruct (Hid k).
Qed.

(** A redirect built by lines 183-191 holds a ['?'] or a ['&']. *)
Lemma redirect_of_separator (url querystring : string) (chosen : jsval)
    (r : string) :
  redirect_of url querystring chosen = JStr r → has_separator r = true.
Proof.
  unfold redirect_of. destruct (truthy chosen); [| done].
  destruct (truthy (JStr querystring)); intros [= <-];
    rewrite !has_separator_app; cbn; by rewrite ?orb_true_r.
Qed.

Lemma redirect_of_not_sentinel (url querystring : string) (chosen : jsval) :
  redirect_of url querystring chosen ≠ JStr noVariationCookieValue.
Proof. intros H. by apply redirect_of_separator in H. Qed.

(** Lines 154-191. [generateRedirectUrl] returns the sentinel only on the
    path of line 161: the cookie under the id holds the sentinel, nothing is
    assigned, and the cookie was read three times. A redirect URL is never
    equal to the sentinel, as it holds a ['?'] or a ['&']. *)
Theorem sentinel_only_from_cookie (this this' : TrafficCopInstance)
    (w w' : World) (k : string) (url querystring : option string) (rando : Z) :
  id this = JStr k →
  generateRedirectUrl url querystring rando (this, w)
  = Normal (JStr noVariationCookieValue, (this', w')) →
  cookies w !! k = Some noVariationCookieValue
  ∧ this' = this ∧ w' = after_cookie_reads k w.
Proof.
  intros Hid. destruct (cookies w !! k) as [c|] eqn:Hc.
  - destruct (variations this) as [o|] eqn:Ho.
    + rewrite (generateRedirectUrl_cookie this w k _ _ _ Hid o c Ho Hc).
      destruct (truthy (get o c)).
      { intros [= H _ _]. by apply redirect_of_not_sentinel in H. }
      unfold strict_eq. case_bool_decide as Heq.
      * injection Heq as ->. by intros [= <- <-].
      * intros [= H _ _]. by apply redirect_of_not_sentinel in H.
    + by rewrite (generateRedirectUrl_no_variations this w k c).
  - rewrite (generateRedirectUrl_no_cookie this w k _ _ _ Hid Hc).
    destruct (rando <=? totalPercentage this);
      [destruct (assign_loop _ _ _) as [[v|]|e] |]; try done;
      intros [= H _ _]; by apply redirect_of_not_sentinel in H.
Qed.

Lemma sentinel_only_from_cookie_witness :
  cookies (page {["exp1" := "novariation"]}) !! "exp1"
  = Some noVariationCookieValue
  ∧ TrafficCop (Some exp1) = TrafficCop (Some exp1)
  ∧ after_cookie_reads "exp1" (page {["exp1" := "novariation"]})
    = after_cookie_reads "exp1" (page {["exp1" := "novariation"]}).
Proof.
  exact (sentinel_only_from_cookie (TrafficCop (Some exp1)) _
           (page {["exp1" := "novariation"]}) _ "exp1" None None 10
           eq_refl eq_refl).
Defined.

(** Lines 142-192. A call of [generateRedirectUrl] that returns writes no
    cookie and does not navigate: the cookie jar and the location are as
    before, the log grows by at most three reads, and of the instance only
    [redirectVariation] can change. *)
Theorem generateRedirectUrl_only_reads (this this' : TrafficCopInstance)
    (w w' : World) (url querystring : option string) (rando : Z) (r : jsval) :
  generateRedirectUrl url querystring rando (this, w) = Normal (r, (this', w')) →
  id this' = id this
  ∧ variations this' = variations this
  ∧ totalPercentage this' = totalPercentage this
  ∧ ∃ reads, Forall is_read reads ∧ (length reads ≤ 3)%nat
      ∧ w' = after_reads reads w.
Proof.
  destruct (id this) as [| |b|n|k| |f] eqn:Hid.
  1-4, 6-7: by rewrite generateRedirectUrl_bad_id by (rewrite Hid; done).
  assert (Hone : record (HasItem k) w = after_reads [HasItem k] w) by done.
  assert (Hthree : after_cookie_reads k w
                   = after_reads [HasItem k; GetItem k; GetItem k] w).
  { unfold after_cookie_reads, after_reads, record. cbn.
    by rewrite <- !app_assoc. }
  destruct (cookies w !! k) as [c|] eqn:Hc.
  - destruct (variations this) as [o|] eqn:Ho.
    + rewrite (generateRedirectUrl_cookie this w k _ _ _ Hid o c Ho Hc).
      destruct (truthy (get o c)); [| destruct (strict_eq _ _)];
        intros [= _ <- <-]; (repeat split; try done);
        exists [HasItem k; GetItem k; GetItem k];
        (split; [by repeat constructor | split; [cbn; lia | done]]).
    + by rewrite (generateRedirectUrl_no_variations this w k c).
  - rewrite (generateRedirectUrl_no_cookie this w k _ _ _ Hid Hc).
    destruct (rando <=? totalPercentage this);
      [destruct (assign_loop _ _ _) as [[v|]|e] |]; try done;
      intros [= _ <- <-]; (repeat split; try done);
      exists [HasItem k];
      (split; [by repeat constructor | split; [cbn; lia | done]]).
Qed.

Lemma generateRedirectUrl_only_reads_witness :
  ∃ reads, Forall is_read reads ∧ (length reads ≤ 3)%nat
    ∧ record (HasItem "exp1") (page ∅) = after_reads reads (page ∅).
Proof.
  exact (proj2 (proj2 (proj2
    (generateRedirectUrl_only_reads (TrafficCop (Some exp1)) _ (page ∅) _
       None None 10 _ eq_refl)))).
Defined.

(** Line 156. On an instance built without a variations object,
    [generateRedirectUrl] throws a TypeError as soon as a cookie is stored
    under the id; without a cookie it returns undefined for every draw from
    1 on. [init] never gets there: such a configuration does not verify. *)
Theorem generateRedirectUrl_without_variations (k : string) (w : World)
    (url querystring : option string) (rando : Z) :
  let this := TrafficCop (Some (mkConfig (JStr k) None)) in
  verifyConfig this = false
  ∧ (is_Some (cookies w !! k) →
     generateRedirectUrl url querystring rando (this, w) = Abrupt TypeError)
  ∧ (cookies w !! k = None → 1 ≤ rando →
     generateRedirectUrl url querystring rando (this, w)
     = Normal (JUndefined, (this, record (HasItem k) w))).
Proof.
  intros this. split; [| split].
  - apply not_true_is_false. rewrite verifyConfig_true_iff.
    by intros (_ & H0 & _).
  - intros [c Hc]. by apply (generateRedirectUrl_no_variations this w k c).
  - intros Hc Hrando.
    rewrite (generateRedirectUrl_no_cookie this w k _ _ _ eq_refl Hc).
    change (totalPercentage this) with 0.
    by rewrite (proj2 (Z.leb_gt _ _)) by lia.
Qed.

Lemma generateRedirectUrl_without_variations_witness :
  generateRedirectUrl None None 10
    (TrafficCop (Some (mkConfig (JStr "exp1") None)), page {["exp1" := "v=1"]})
  = Abrupt TypeError.
Proof.
  apply (proj1 (proj2 (generateRedirectUrl_without_variations "exp1"
           (page {["exp1" := "v=1"]}) None None 10))).
  by exists "v=1".
Defined.

(** ** init: the path that redirects *)

Lemma redirect_of_appended (url querystring v : string) :
  v ≠ "" →
  redirect_of url querystring (JStr v) = JStr (url +:+ appended querystring v).
Proof.
  intros Hv. unfold redirect_of, appended.
  assert (Htruthy : truthy (JStr v) = true).
  { cbn. by destruct (String.eqb_spec v ""). }
  rewrite Htruthy. by destruct (truthy (JStr querystring)).
Qed.

Lemma redirect_of_empty (url querystring : string) :
  redirect_of url querystring (JStr "") = JUndefined.
Proof. reflexivity. Qed.

Lemma has_separator_truthy (u : string) :
  has_separator u = true →
  truthy (JStr u) = true ∧ strict_eq (JStr u) (JStr noVariationCookieValue) = false.
Proof.
  intros Hsep. split.
  - by destruct u.
  - unfold strict_eq. apply bool_decide_eq_false_2. by intros [= ->].
Qed.

(** Lines 88-93 when the test of line 90 succeeds. *)
Lemma init_redirect (this this' : TrafficCopInstance) (w w' : World)
    (k u v : string) (o : object) (rando : Z) :
  dnt w = false →
  verifyConfig this = true →
  isVariation this w None = false →
  id this = JStr k →
  variations this = Some o →
  generateRedirectUrl None None rando (this, w) = Normal (JStr u, (this', w')) →
  has_separator u = true →
  redirectVariation this' = JStr v →
  init rando (this, w)
  = Normal (tt, (this', after_navigate u (after_setItem k v w'))).
Proof.
  intros Hdnt Hvalid Hpage Hid Ho Hgen Hsep Hv.
  destruct (generateRedirectUrl_reads _ _ _ _ _ _ _ _ _ _ Hid Ho Hgen) as [Hid' _].
  rewrite Hid in Hid'.
  destruct (has_separator_truthy u Hsep) as [Htruthy Hneq].
  unfold init.
  repeat (progress (run_M; rewrite ?Hdnt, ?Hvalid, ?Hpage, ?Hgen, ?Htruthy,
                      ?Hneq, ?Hid', ?Hv; cbn [negb ToString])).
  reflexivity.
Qed.

Lemma sumZ_app (l1 l2 : list Z) : sumZ (l1 ++ l2) = sumZ l1 + sumZ l2.
Proof.
  unfold sumZ. induction l1 as [|x l1 IH]; cbn; [done |]. rewrite IH. lia.
Qed.

Lemma first_reaching_key (rando : Z) (weights : list (string * Z)) (v : string) :
  first_reaching rando weights v → v ∈ weights.*1.
Proof.
  intros (before & n & after & -> & _). rewrite fmap_app, elem_of_app.
  right. cbn. left.
Qed.

(** Lines 86-93 for a first visit. With a valid configuration whose weights
    are integers and whose tokens are not empty, DNT off, a page that is not
    a variation, no cookie and a draw from 1 to [totalPercentage], [init]
    stores the chosen token under the id and then navigates to the current
    location followed by the query string and the token. *)
Theorem init_first_visit_redirects (k : string) (weights : list (string * Z))
    (w : World) (rando : Z) :
  let this := TrafficCop (Some (mkConfig (JStr k) (Some (numeric weights)))) in
  verifyConfig this = true →
  "" ∉ weights.*1 →
  dnt w = false →
  isVariation this w None = false →
  cookies w !! k = None →
  1 ≤ rando ≤ totalPercentage this →
  ∃ v, first_reaching rando weights v
    ∧ init rando (this, w)
      = Normal (tt,
          (with_redirectVariation this (JStr v),
           after_navigate (href w +:+ appended (search w) v)
             (after_setItem k v (record (HasItem k) w)))).
Proof.
  intros this Hvalid Hnonempty Hdnt Hpage Hnone Hrando.
  assert (Htotal : totalPercentage this = sumZ weights.*2).
  { unfold this. rewrite totalPercentage_TrafficCop.
    change (sumZ (numeric_weights (numeric weights)) = sumZ weights.*2).
    by rewrite numeric_weights_numeric. }
  destruct (first_reaching_of_walk rando weights) as (v & Hfirst & Hrun);
    [lia | lia |].
  exists v. split; [done |].
  assert (Hv : v ≠ "").
  { intros ->. by apply Hnonempty, (first_reaching_key rando). }
  apply (init_redirect this _ w _ k _ v (numeric weights)); try done.
  - rewrite (generateRedirectUrl_no_cookie this w k _ _ _ eq_refl Hnone).
    rewrite (proj2 (Z.leb_le _ _)) by lia.
    change (enumerate (variations this)) with (numeric weights).
    rewrite Hrun. by rewrite redirect_of_appended.
  - rewrite has_separator_app. unfold appended.
    destruct (truthy (JStr (search w))); rewrite !has_separator_app; cbn;
      by rewrite ?orb_true_r.
Qed.

Lemma init_first_visit_redirects_witness :
  ∃ v, first_reaching 30 [("v=1", 25); ("v=2", 25)] v
    ∧ init 30 (TrafficCop (Some exp1), page ∅)
      = Normal (tt,
          (with_redirectVariation (TrafficCop (Some exp1)) (JStr v),
           after_navigate ("https://www.mozilla.org/firefox/new/" +:+ appended "" v)
             (after_setItem "exp1" v (record (HasItem "exp1") (page ∅))))).
Proof.
  apply (init_first_visit_redirects "exp1" [("v=1", 25); ("v=2", 25)] (page ∅) 30);
    try reflexivity.
  - cbn. rewrite !not_elem_of_cons. repeat split; try discriminate.
    apply not_elem_of_nil.
  - vm_compute. split; discriminate.
Defined.

(** Lines 86-93 for a returning visitor. With a valid configuration, DNT
    off and a page that is not a variation, when the cookie under the id
    holds a non-empty token whose weight is truthy, [init] stores the same
    token again and navigates to the current location followed by the query
    string and the token, whatever the draw; the cookie jar holds what it
    held before. *)
Theorem init_returning_visitor_redirects (config : Config) (k c : string)
    (w : World) (rando : Z) :
  let this := TrafficCop (Some config) in
  let w' := after_navigate (href w +:+ appended (search w) c)
              (after_setItem k c (after_cookie_reads k w)) in
  verifyConfig this = true →
  cfg_id config = JStr k →
  dnt w = false →
  isVariation this w None = false →
  cookies w !! k = Some c →
  truthy (get (enumerate (cfg_variations config)) c) = true →
  c ≠ "" →
  init rando (this, w) = Normal (tt, (with_redirectVariation this (JStr c), w'))
  ∧ cookies w' = cookies w.
Proof.
  intros this w' Hvalid Hid Hdnt Hpage Hc Hweight Hne.
  destruct (valid_has_variations config Hvalid) as [o Ho].
  rewrite Ho in Hweight. cbn in Hweight. split.
  - apply (init_redirect this _ w _ k _ c o); try done.
    + rewrite (generateRedirectUrl_cookie this w k _ _ _ Hid o c Ho Hc), Hweight.
      by rewrite redirect_of_appended.
    + rewrite has_separator_app. unfold appended.
      destruct (truthy (JStr (search w))); rewrite !has_separator_app; cbn;
        by rewrite ?orb_true_r.
  - cbn. by apply insert_id.
Qed.

Lemma init_returning_visitor_redirects_witness :
  init 80 (TrafficCop (Some exp1), page {["exp1" := "v=2"]})
  = Normal (tt,
      (with_redirectVariation (TrafficCop (Some exp1)) (JStr "v=2"),
       after_navigate ("https://www.mozilla.org/firefox/new/" +:+ appended "" "v=2")
         (after_setItem "exp1" "v=2"
            (after_cookie_reads "exp1" (page {["exp1" := "v=2"]}))))).
Proof.
  refine (proj1 (init_returning_visitor_redirects exp1 "exp1" "v=2"
            (page {["exp1" := "v=2"]}) 80 _ _ _ _ _ _ _));
    try reflexivity.
  discriminate.
Defined.

(** ** init: every load *)

Lemma init_guarded (this : TrafficCopInstance) (w : World) (rando : Z) :
  dnt w = true ∨ verifyConfig this = false ∨ isVariation this w None = true →
  init rando (this, w) = Normal (tt, (this, w)).
Proof.
  intros Hguard. unfold init. run_M. destruct (dnt w); [done |].
  run_M. destruct (verifyConfig this); [| done].
  destruct (isVariation this w None); [done |].
  by destruct Hguard as [? | [? | ?]].
Qed.

Lemma after_reads_nil (w : World) : after_reads [] w = w.
Proof. destruct w. unfold after_reads. cbn. by rewrite app_nil_r. Qed.

Lemma after_cookie_reads_log (k : string) (w : World) :
  after_cookie_reads k w = after_reads [HasItem k; GetItem k; GetItem k] w.
Proof.
  unfold after_cookie_reads, after_reads, record. cbn. by rewrite <- !app_assoc.
Qed.

Lemma assign_loop_numeric_total (rando : Z) (weights : list (string * Z))
    (acc : Z) :
  assign_loop rando (numeric weights) (Finite acc) = Normal None
  ∨ ∃ v, v ∈ weights.*1
      ∧ assign_loop rando (numeric weights) (Finite acc) = Normal (Some v).
Proof.
  revert acc. induction weights as [|[v n] rest IH]; intros acc; [by left |].
  cbn [numeric fmap list_fmap prod_map fst snd assign_loop ToNumber plus at_most].
  destruct (rando <=? n + acc).
  - right. exists v. split; [left | done].
  - destruct (IH (acc + n)) as [Hnone | (v' & Hin & Hsome)]; [by left |].
    right. exists v'. split; [by right | done].
Qed.

Lemma has_separator_appended (url querystring v : string) :
  has_separator (url +:+ appended querystring v) = true.
Proof.
  rewrite has_separator_app. unfold appended.
  destruct (truthy (JStr querystring)); rewrite !has_separator_app; cbn;
    by rewrite ?orb_true_r.
Qed.

(** Lines 72-101. For every configuration whose weights are integers, valid
    or not, every world and every draw, [init] completes and does one of
    three things after reading the cookie at most three times: nothing more;
    one write of the sentinel under the id; or one write of a non-empty
    token [v] under the id followed by one navigation to the current
    location followed by the query string and [v]. It never writes twice
    and never navigates without having stored the token of the target. *)
Theorem init_outcomes (i : jsval) (weights : list (string * Z)) (w : World)
    (rando : Z) :
  let this := TrafficCop (Some (mkConfig i (Some (numeric weights)))) in
  ∃ this' reads,
    Forall is_read reads ∧ (length reads ≤ 3)%nat ∧
    (init rando (this, w) = Normal (tt, (this', after_reads reads w))
     ∨ (∃ k, i = JStr k
          ∧ init rando (this, w)
            = Normal (tt, (this',
                after_setItem k noVariationCookieValue (after_reads reads w))))
     ∨ (∃ k v, i = JStr k ∧ v ≠ "" ∧ redirectVariation this' = JStr v
          ∧ init rando (this, w)
            = Normal (tt, (this',
                after_navigate (href w +:+ appended (search w) v)
                  (after_setItem k v (after_reads reads w)))))).
Proof.
  intros this.
  destruct (dnt w) eqn:Hdnt;
    [| destruct (verifyConfig this) eqn:Hvalid;
       [destruct (isVariation this w None) eqn:Hpage |]].
  1, 2, 4: exists this, []; split; [done |]; split; [cbn; lia |]; left;
    rewrite after_reads_nil; apply init_guarded; auto.
  destruct (proj1 (verifyConfig_true_iff this) Hvalid) as ((k & Hid & _) & _).
  change (id this) with i in Hid. subst i.
  pose (o := numeric weights).
  assert (Ho : variations this = Some o) by done.
  destruct (cookies w !! k) as [c|] eqn:Hc.
  - pose proof (generateRedirectUrl_cookie this w k None None rando eq_refl o c Ho Hc)
      as Hgen. cbn [or_else] in Hgen.
    rewrite after_cookie_reads_log in Hgen.
    destruct (truthy (get o c)) eqn:Hweight;
      [| destruct (strict_eq (JStr c) (JStr noVariationCookieValue)) eqn:Heq].
    + destruct (decide (c = "")) as [-> | Hne].
      * exists (with_redirectVariation this (JStr "")),
          [HasItem k; GetItem k; GetItem k].
        split; [by repeat constructor |]. split; [cbn; lia |].
        right; left. exists k. split; [done |].
        by apply (init_undefined this w k o).
      * exists (with_redirectVariation this (JStr c)),
          [HasItem k; GetItem k; GetItem k].
        split; [by repeat constructor |]. split; [cbn; lia |].
        right; right. exists k, c. repeat (split; [done |]).
        rewrite redirect_of_appended in Hgen by done.
        apply (init_redirect this _ w _ k _ c o); try done.
        apply has_separator_appended.
    + exists this, [HasItem k; GetItem k; GetItem k].
      split; [by repeat constructor |]. split; [cbn; lia |].
      left. by apply (init_sentinel this w).
    + exists this, [HasItem k; GetItem k; GetItem k].
      split; [by repeat constructor |]. split; [cbn; lia |].
      right; left. exists k. split; [done |].
      by apply (init_undefined this w k o).
  - pose proof (generateRedirectUrl_no_cookie this w k None None rando eq_refl Hc)
      as Hgen. cbn [or_else] in Hgen.
    change (record (HasItem k) w) with (after_reads [HasItem k] w) in Hgen.
    change (enumerate (variations this)) with (numeric weights) in Hgen.
    assert (Hskip : generateRedirectUrl None None rando (this, w)
                    = Normal (JUndefined, (this, after_reads [HasItem k] w)) →
      ∃ this' reads, Forall is_read reads ∧ (length reads ≤ 3)%nat ∧
        (init rando (this, w) = Normal (tt, (this', after_reads reads w))
         ∨ (∃ k0, JStr k = JStr k0
              ∧ init rando (this, w)
                = Normal (tt, (this',
                    after_setItem k0 noVariationCookieValue (after_reads reads w))))
         ∨ (∃ k0 v, JStr k = JStr k0 ∧ v ≠ "" ∧ redirectVariation this' = JStr v
              ∧ init rando (this, w)
                = Normal (tt, (this',
                    after_navigate (href w +:+ appended (search w) v)
                      (after_setItem k0 v (after_reads reads w))))))).
    { intros Hundef. exists this, [HasItem k].
      split; [by repeat constructor |]. split; [cbn; lia |].
      right; left. exists k. split; [done |].
      by apply (init_undefined this w k o). }
    destruct (rando <=? totalPercentage this); [| by apply Hskip].
    destruct (assign_loop_numeric_total rando weights 0)
      as [Hnone | (v & Hin & Hsome)].
    + rewrite Hnone in Hgen. by apply Hskip.
    + rewrite Hsome in Hgen. destruct (decide (v = "")) as [-> | Hne].
      * exists (with_redirectVariation this (JStr "")), [HasItem k].
        split; [by repeat constructor |]. split; [cbn; lia |].
        right; left. exists k. split; [done |].
        by apply (init_undefined this w k o).
      * exists (with_redirectVariation this (JStr v)), [HasItem k].
        split; [by repeat constructor |]. split; [cbn; lia |].
        right; right. exists k, v. repeat (split; [done |]).
        rewrite redirect_of_appended in Hgen by done.
        apply (init_redirect this _ w _ k _ v o); try done.
        apply has_separator_appended.
Qed.

(** ** Across loads *)

Lemma get_numeric_app (before after : list (string * Z)) (v : string) (n : Z) :
  v ∉ before.*1 → get (numeric (before ++ (v, n) :: after)) v = JNum n.
Proof.
  intros Hnot. unfold get.
  assert (Hown : get_own (numeric (before ++ (v, n) :: after)) v = Some (JNum n)).
  { induction before as [|[v' n'] before IH].
    - cbn. by rewrite String.eqb_refl.
    - cbn in Hnot. apply not_elem_of_cons in Hnot as [Hne Hnot].
      cbn. destruct (String.eqb_spec v' v); [congruence | by apply IH]. }
  by rewrite Hown.
Qed.

Lemma first_reaching_weight (rando : Z) (weights : list (string * Z))
    (v : string) :
  0 < rando → NoDup weights.*1 → first_reaching rando weights v →
  truthy (get (numeric weights) v) = true.
Proof.
  intros Hpos Hnodup (before & n & after & -> & Hle & Hfirst).
  rewrite get_numeric_app.
  - assert (Hbefore : sumZ before.*2 < rando).
    { destruct (decide (before = [])) as [-> | Hne]; [done |].
      destruct (exists_last Hne) as (init & [v' n'] & ->).
      specialize (Hfirst (length init) v' n').
      rewrite lookup_app_r, Nat.sub_diag in Hfirst by done.
      specialize (Hfirst eq_refl).
      rewrite take_app_length in Hfirst.
      rewrite fmap_app, sumZ_app. cbn. lia. }
    cbn. apply negb_true_iff, Z.eqb_neq. lia.
  - rewrite fmap_app in Hnodup. apply NoDup_app in Hnodup as (_ & Hdisj & _).
    intros Hin. apply (Hdisj v Hin). cbn. left.
Qed.

(** Lines 91 and 154-157, one load after the other. With a valid
    configuration whose weights are integers and whose tokens are distinct
    and not empty: once [init] has sent a first-time visitor to the variation
    [v], the cookie under the id holds [v], and on every later load whose
    cookie jar still holds it [generateRedirectUrl] returns the redirect for
    the same [v], whatever the draw. *)
Theorem assignment_is_sticky_across_loads (k : string)
    (weights : list (string * Z)) (w : World) (rando : Z) :
  let this := TrafficCop (Some (mkConfig (JStr k) (Some (numeric weights)))) in
  verifyConfig this = true →
  NoDup weights.*1 →
  "" ∉ weights.*1 →
  dnt w = false →
  isVariation this w None = false →
  cookies w !! k = None →
  1 ≤ rando ≤ totalPercentage this →
  ∃ v this1 w1,
    init rando (this, w) = Normal (tt, (this1, w1))
    ∧ cookies w1 !! k = Some v
    ∧ ∀ w2 url querystring rando2,
        cookies w2 !! k = Some v →
        generateRedirectUrl url querystring rando2 (this, w2)
        = Normal (JStr (or_else url (href w2)
                        +:+ appended (or_else querystring (search w2)) v),
                  (with_redirectVariation this (JStr v),
                   after_cookie_reads k w2)).
Proof.
  intros this Hvalid Hnodup Hnonempty Hdnt Hpage Hnone Hrando.
  assert (Htotal : totalPercentage this = sumZ weights.*2).
  { unfold this. rewrite totalPercentage_TrafficCop.
    change (sumZ (numeric_weights (numeric weights)) = sumZ weights.*2).
    by rewrite numeric_weights_numeric. }
  destruct (first_reaching_of_walk rando weights) as (v & Hfirst & Hrun);
    [lia | lia |].
  assert (Hv : v ≠ "").
  { intros ->. by apply Hnonempty, (first_reaching_key rando). }
  exists v, (with_redirectVariation this (JStr v)),
    (after_navigate (href w +:+ appended (search w) v)
       (after_setItem k v (record (HasItem k) w))).
  split; [| split].
  - apply (init_redirect this _ w _ k _ v (numeric weights)); try done.
    + rewrite (generateRedirectUrl_no_cookie this w k _ _ _ eq_refl Hnone).
      rewrite (proj2 (Z.leb_le _ _)) by lia.
      change (enumerate (variations this)) with (numeric weights).
      rewrite Hrun. by rewrite redirect_of_appended.
    + apply has_separator_appended.
  - cbn. apply lookup_insert_eq.
  - intros w2 url querystring rando2 Hc.
    rewrite (generateRedirectUrl_cookie this w2 k _ _ _ eq_refl
               (numeric weights) v eq_refl Hc).
    rewrite (first_reaching_weight rando) by (done || lia).
    by rewrite redirect_of_appended.
Qed.

Lemma assignment_is_sticky_across_loads_witness :
  ∃ v this1 w1,
    init 30 (TrafficCop (Some exp1), page ∅) = Normal (tt, (this1, w1))
    ∧ cookies w1 !! "exp1" = Some v
    ∧ ∀ w2 url querystring rando2,
        cookies w2 !! "exp1" = Some v →
        generateRedirectUrl url querystring rando2 (TrafficCop (Some exp1), w2)
        = Normal (JStr (or_else url (href w2)
                        +:+ appended (or_else querystring (search w2)) v),
                  (with_redirectVariation (TrafficCop (Some exp1)) (JStr v),
                   after_cookie_reads "exp1" w2)).
Proof.
  apply (assignment_is_sticky_across_loads "exp1" [("v=1", 25); ("v=2", 25)]
           (page ∅) 30); try reflexivity.
  - cbn. repeat constructor; rewrite ?not_elem_of_cons; repeat split;
      try discriminate; apply not_elem_of_nil.
  - cbn. rewrite !not_elem_of_cons. repeat split; try discriminate.
    apply not_elem_of_nil.
  - vm_compute. split; discriminate.
Defined.

(** Lines 97 and 160-161, one load after the other. With a valid
    configuration in which the sentinel is not a token with a truthy weight,
    DNT off and a page that is not a variation: a first-time visitor whose
    draw exceeds [totalPercentage] gets the sentinel cookie and stays, and on
    every later load of such a page whose cookie jar still holds the sentinel
    [init] only reads the cookie, whatever the draw. *)
Theorem no_variation_is_sticky_across_loads (config : Config) (k : string)
    (w : World) (rando : Z) :
  let this := TrafficCop (Some config) in
  verifyConfig this = true →
  cfg_id config = JStr k →
  truthy (get (enumerate (cfg_variations config)) noVariationCookieValue) = false →
  dnt w = false →
  isVariation this w None = false →
  cookies w !! k = None →
  totalPercentage this < rando →
  init rando (this, w)
  = Normal (tt, (this, after_setItem k noVariationCookieValue
                         (record (HasItem k) w)))
  ∧ ∀ w2 rando2,
      cookies w2 !! k = Some noVariationCookieValue →
      dnt w2 = false →
      isVariation this w2 None = false →
      init rando2 (this, w2) = Normal (tt, (this, after_cookie_reads k w2)).
Proof.
  intros this Hvalid Hid Hweight Hdnt Hpage Hnone Hrando.
  destruct (valid_has_variations config Hvalid) as [o Ho].
  rewrite Ho in Hweight. cbn in Hweight. split.
  - apply (init_undefined this w k o); try done.
    rewrite (generateRedirectUrl_no_cookie this w k _ _ _ Hid Hnone).
    by rewrite (proj2 (Z.leb_gt _ _)) by lia.
  - intros w2 rando2 Hc Hdnt2 Hpage2.
    apply (init_sentinel this w2); try done.
    by rewrite (generateRedirectUrl_cookie this w2 k _ _ _ Hid o _ Ho Hc), Hweight.
Qed.

Lemma no_variation_is_sticky_across_loads_witness :
  init 80 (TrafficCop (Some exp1), page ∅)
  = Normal (tt, (TrafficCop (Some exp1),
                 after_setItem "exp1" noVariationCookieValue
                   (record (HasItem "exp1") (page ∅)))).
Proof.
  refine (proj1 (no_variation_is_sticky_across_loads exp1 "exp1" (page ∅) 80
            _ _ _ _ _ _ _)); try reflexivity.
Defined.

Lemma append_assoc (a b c : string) : (a +:+ b) +:+ c = a +:+ b +:+ c.
Proof.
  induction a as [|x a IH]; [done |].
  change (String x ((a +:+ b) +:+ c) = String x (a +:+ b +:+ c)).
  by rewrite IH.
Qed.

Lemma append_empty_r (a : string) : a +:+ "" = a.
Proof.
  induction a as [|x a IH]; [done |].
  change (String x (a +:+ "") = String x a). by rewrite IH.
Qed.

Lemma append_inj_l (u a b : string) : u +:+ a = u +:+ b → a = b.
Proof.
  induction u as [|c u IH]; [done |].
  change (String c (u +:+ a) = String c (u +:+ b) → a = b).
  intros [= H]. by apply IH.
Qed.

(** Lines 84 and 184-188 together. The redirect built for a token [v] of the
    configuration is the url followed by a tail that ends in ['?'] or ['&']
    and [v]; on every page whose query string ends with that tail
    [isVariation] answers true and [init] does nothing, so the target of a
    redirect is not redirected again. *)
Theorem redirect_target_is_not_redirected (this : TrafficCopInstance)
    (w2 : World) (url querystring v tail before : string) (rando : Z) :
  v ∈ (enumerate (variations this)).*1 →
  redirect_of url querystring (JStr v) = JStr (url +:+ tail) →
  search w2 = before +:+ tail →
  isVariation this w2 None = true
  ∧ init rando (this, w2) = Normal (tt, (this, w2)).
Proof.
  intros Hin Hredirect Hsearch.
  assert (Htail : tail = appended querystring v).
  { destruct (decide (v = "")) as [-> | Hv]; [done |].
    rewrite redirect_of_appended in Hredirect by done.
    injection Hredirect as Heq. by apply append_inj_l in Heq. }
  assert (Hpage : isVariation this w2 None = true).
  { unfold isVariation. apply isVariation_loop_iff.
    apply list_elem_of_fmap in Hin as ([v' x] & -> & Hin).
    exists v', x. split; [done |]. cbn [fst or_else].
    rewrite Hsearch, Htail. unfold appended.
    destruct (truthy (JStr querystring)).
    - right. exists (before +:+ querystring), "".
      by rewrite append_empty_r, append_assoc.
    - left. exists before, "". by rewrite append_empty_r. }
  split; [done |]. apply init_guarded. auto.
Qed.

Lemma redirect_target_is_not_redirected_witness :
  init 10 (TrafficCop (Some exp1),
           mkWorld ∅ "https://www.mozilla.org/firefox/new/?a=b&v=2" "?a=b&v=2"
             None [])
  = Normal (tt, (TrafficCop (Some exp1),
           mkWorld ∅ "https://www.mozilla.org/firefox/new/?a=b&v=2" "?a=b&v=2"
             None [])).
Proof.
  refine (proj2 (redirect_target_is_not_redirected (TrafficCop (Some exp1))
            (mkWorld ∅ "https://www.mozilla.org/firefox/new/?a=b&v=2" "?a=b&v=2"
               None [])
            "https://www.mozilla.org/firefox/new/" "?a=b" "v=2" "?a=b&v=2" "" 10
            _ _ _)); try reflexivity.
  cbn. apply list_elem_of_further, list_elem_of_here.
Defined.

(** ** The share of each variation *)

Lemma assign_loop_key (rando : Z) (weights : list (string * Z)) (acc : Z)
    (v : string) :
  assign_loop rando (numeric weights) (Finite acc) = Normal (Some v) → v ∈ weights.*1.
Proof.
  destruct (assign_loop_numeric_total rando weights acc)
    as [-> | (v' & Hin & ->)]; [done |].
  by intros [= <-].
Qed.

Lemma sumZ_nonneg (l : list (string * Z)) :
  Forall (λ p, 0 ≤ p.2) l → 0 ≤ sumZ l.*2.
Proof.
  unfold sumZ. induction 1 as [|[v n] l Hn _ IH]; cbn in *; lia.
Qed.

(** With weights that are not negative, the walk of lines 169-178 stops at
    [v] exactly for the draws of the range that [v] owns. *)
Lemma assign_loop_interval (rando : Z) (before after : list (string * Z))
    (v : string) (n acc : Z) :
  Forall (λ p, 0 ≤ p.2) before →
  v ∉ before.*1 → v ∉ after.*1 →
  acc < rando →
  assign_loop rando (numeric (before ++ (v, n) :: after)) (Finite acc) = Normal (Some v)
  ↔ acc + sumZ before.*2 < rando ≤ acc + sumZ before.*2 + n.
Proof.
  revert acc. induction before as [|[v' n'] before IH];
    intros acc Hnonneg Hbefore Hafter Hacc.
  - cbn [app numeric fmap list_fmap prod_map fst snd assign_loop ToNumber plus
         at_most sumZ foldr].
    destruct (Z.leb_spec rando (n + acc)).
    + split; [lia | done].
    + split; [| lia]. intros Hrun. by apply assign_loop_key in Hrun.
  - apply Forall_cons in Hnonneg as [Hn' Hnonneg]. cbn in Hn'.
    cbn in Hbefore. apply not_elem_of_cons in Hbefore as [Hne Hbefore].
    pose proof (sumZ_nonneg before Hnonneg) as Hsum.
    cbn [app numeric fmap list_fmap prod_map fst snd assign_loop ToNumber plus
         at_most].
    change (sumZ (n' :: before.*2)) with (n' + sumZ before.*2).
    destruct (Z.leb_spec rando (n' + acc)).
    + split; [intros [= ?]; congruence | lia].
    + rewrite (IH (acc + n')) by (done || lia). lia.
Qed.

Lemma assign_loop_none (rando : Z) (weights : list (string * Z)) (acc : Z) :
  Forall (λ p, 0 ≤ p.2) weights →
  acc < rando →
  assign_loop rando (numeric weights) (Finite acc) = Normal None
  ↔ acc + sumZ weights.*2 < rando.
Proof.
  revert acc. induction weights as [|[v n] rest IH]; intros acc Hnonneg Hacc.
  - cbn. split; [intros _; lia | done].
  - apply Forall_cons in Hnonneg as [Hn Hnonneg]. cbn in Hn.
    pose proof (sumZ_nonneg rest Hnonneg) as Hsum.
    cbn [numeric fmap list_fmap prod_map fst snd assign_loop ToNumber plus at_most].
    change (sumZ (n :: rest.*2)) with (n + sumZ rest.*2).
    destruct (Z.leb_spec rando (n + acc)).
    + split; [done | lia].
    + rewrite (IH (acc + n)) by (done || lia). lia.
Qed.

Section Shares.

Context (k v : string) (n : Z) (before after : list (string * Z)).
Context (w : World) (url querystring : option string).

Let weights : list (string * Z) := before ++ (v, n) :: after.
Let this : TrafficCopInstance :=
  TrafficCop (Some (mkConfig (JStr k) (Some (numeric weights)))).

Hypothesis Hnonneg : Forall (λ p, 0 ≤ p.2) weights.
Hypothesis Hnodup : NoDup weights.*1.
Hypothesis Hnone : cookies w !! k = None.

Lemma shares_total : totalPercentage this = sumZ weights.*2.
Proof.
  unfold this. rewrite totalPercentage_TrafficCop.
  change (sumZ (numeric_weights (numeric weights)) = sumZ weights.*2).
  by rewrite numeric_weights_numeric.
Qed.

Lemma shares_split :
  Forall (λ p, 0 ≤ p.2) before ∧ (v ∉ before.*1) ∧ (v ∉ after.*1)
  ∧ 0 ≤ n ∧ 0 ≤ sumZ (before.*2) ∧ 0 ≤ sumZ (after.*2)
  ∧ sumZ (weights.*2) = sumZ (before.*2) + n + sumZ (after.*2).
Proof.
  unfold weights in *. apply Forall_app in Hnonneg as [Hb Ha].
  apply Forall_cons in Ha as [Hn Ha]. cbn in Hn.
  rewrite fmap_app in Hnodup. apply NoDup_app in Hnodup as (_ & Hdisj & Hnd).
  cbn in Hnd. apply NoDup_cons in Hnd as [Hafter _].
  repeat split; try done.
  - intros Hin. apply (Hdisj v Hin). cbn. left.
  - by apply sumZ_nonneg.
  - by apply sumZ_nonneg.
  - rewrite fmap_app, sumZ_app, fmap_cons.
    change (sumZ ((v, n).2 :: after.*2)) with (n + sumZ after.*2). lia.
Qed.

Lemma draw_assigns (rando : Z) :
  1 ≤ rando →
  assigned_variation (generateRedirectUrl url querystring rando (this, w)) = JStr v
  ↔ sumZ before.*2 < rando ≤ sumZ before.*2 + n.
Proof.
  intros Hrando.
  destruct shares_split as (Hb & Hvb & Hva & Hn & Hsb & Hsa & Hsum).
  pose proof shares_total as Htotal.
  rewrite (generateRedirectUrl_no_cookie this w k _ _ _ eq_refl Hnone).
  change (enumerate (variations this)) with (numeric weights).
  pose proof (assign_loop_interval rando before after v n 0 Hb Hvb Hva) as Hloop.
  fold weights in Hloop.
  destruct (Z.leb_spec rando (totalPercentage this)) as [Hle | Hgt].
  - destruct (assign_loop rando (numeric weights) (Finite 0)) as [[v'|]|e] eqn:Hrun; cbn.
    + split.
      * intros [= ->]. apply Hloop; [lia | done].
      * intros Hin. f_equal. apply Hloop in Hin; [| lia]. congruence.
    + split; [done |]. intros Hin. apply Hloop in Hin; [done | lia].
    + split; [done |]. intros Hin. apply Hloop in Hin; [done | lia].
  - cbn. split; [done | lia].
Qed.

Lemma draw_assigns_nothing (rando : Z) :
  1 ≤ rando →
  assigned_variation (generateRedirectUrl url querystring rando (this, w))
  = JUndefined
  ↔ totalPercentage this < rando.
Proof.
  intros Hrando. pose proof shares_total as Htotal.
  rewrite (generateRedirectUrl_no_cookie this w k _ _ _ eq_refl Hnone).
  change (enumerate (variations this)) with (numeric weights).
  pose proof (assign_loop_none rando weights 0 Hnonneg) as Hloop.
  destruct (Z.leb_spec rando (totalPercentage this)) as [Hle | Hgt].
  - destruct (assign_loop rando (numeric weights) (Finite 0)) as [[v'|]|e] eqn:Hrun;
      cbn [assigned_variation redirectVariation with_redirectVariation].
    + split; [done | lia].
    + split; [intros _ | done].
      assert (0 + sumZ weights.*2 < rando) by (apply Hloop; [lia | done]). lia.
    + destruct (assign_loop_numeric_total rando weights 0)
        as [H | (? & _ & H)]; congruence.
  - cbn [assigned_variation]. split; intros _; [done | reflexivity].
Qed.

End Shares.

(** Lines 163-180. With weights that are not negative and distinct tokens,
    and no cookie under the id, a draw from 1 on assigns the variation [v]
    exactly when it lies above the sum of the weights before [v] and at most
    that sum plus the weight of [v]; it assigns nothing exactly when it
    exceeds [totalPercentage]. *)
Theorem draw_selects_owned_range (k v : string) (n : Z)
    (before after : list (string * Z)) (w : World)
    (url querystring : option string) (rando : Z) :
  let weights := before ++ (v, n) :: after in
  let this := TrafficCop (Some (mkConfig (JStr k) (Some (numeric weights)))) in
  Forall (λ p, 0 ≤ p.2) weights →
  NoDup weights.*1 →
  cookies w !! k = None →
  1 ≤ rando →
  (assigned_variation (generateRedirectUrl url querystring rando (this, w))
   = JStr v
   ↔ sumZ before.*2 < rando ≤ sumZ before.*2 + n)
  ∧ (assigned_variation (generateRedirectUrl url querystring rando (this, w))
     = JUndefined
     ↔ totalPercentage this < rando).
Proof.
  intros weights this Hnonneg Hnodup Hnone Hrando. split.
  - by apply draw_assigns.
  - by apply draw_assigns_nothing.
Qed.

Lemma draw_selects_owned_range_witness :
  assigned_variation
    (generateRedirectUrl None None 26 (TrafficCop (Some exp1), page ∅))
  = JStr "v=2".
Proof.
  apply (proj1 (draw_selects_owned_range "exp1" "v=2" 25 [("v=1", 25)] []
                  (page ∅) None None 26 ltac:(repeat constructor; cbn; lia)
                  ltac:(cbn; repeat constructor; rewrite ?not_elem_of_cons;
                        repeat split; try discriminate; apply not_elem_of_nil)
                  eq_refl ltac:(lia))).
  vm_compute. split; [reflexivity | discriminate].
Defined.

Lemma filter_ext_in {A : Type} (P Q : A → Prop) `{∀ x, Decision (P x)}
    `{∀ x, Decision (Q x)} (l : list A) :
  (∀ x, x ∈ l → P x ↔ Q x) → filter P l = filter Q l.
Proof.
  induction l as [|x l IH]; intros Hiff; [done |].
  rewrite !filter_cons.
  rewrite IH by (intros y Hy; apply Hiff; by right).
  destruct (decide (P x)) as [HP | HP], (decide (Q x)) as [HQ | HQ]; try done.
  - destruct HQ. apply Hiff; [left | done].
  - destruct HP. apply Hiff; [left | done].
Qed.

Lemma filter_all {A : Type} (P : A → Prop) `{∀ x, Decision (P x)} (l : list A) :
  Forall P l → filter P l = l.
Proof.
  induction 1 as [|x l HP _ IH]; [done |].
  by rewrite filter_cons_True, IH.
Qed.

Lemma filter_none {A : Type} (P : A → Prop) `{∀ x, Decision (P x)} (l : list A) :
  Forall (λ x, ¬ P x) l → filter P l = [].
Proof.
  induction 1 as [|x l HP _ IH]; [done |].
  by rewrite filter_cons_False.
Qed.

(** The number of draws in a range. *)
Lemma count_draws_in_range (a b : Z) :
  0 ≤ a → a ≤ b → b ≤ 100 →
  length (filter (λ r, a < r ∧ r ≤ b) draws) = Z.to_nat (b - a).
Proof.
  intros Ha Hab Hb. unfold draws.
  replace 100 with (a + ((b - a) + (100 - b))) at 1 by lia.
  rewrite seqZ_app by lia. rewrite (seqZ_app (1 + a)) by lia.
  rewrite !filter_app.
  rewrite (filter_none _ (seqZ 1 a)), (filter_all _ (seqZ (1 + a) (b - a))),
    (filter_none _ (seqZ _ (100 - b))).
  - by rewrite app_nil_l, app_nil_r, length_seqZ.
  - apply Forall_seqZ. lia.
  - apply Forall_seqZ. lia.
  - apply Forall_seqZ. lia.
Qed.

(** Lines 147 and 163-180. With a valid configuration whose weights are not
    negative and whose tokens are distinct, and no cookie under the id: of
    the 100 values the draw can take, exactly as many as its weight assign a
    given variation, and exactly 100 minus [totalPercentage] assign none. *)
Theorem each_variation_gets_its_share (k v : string) (n : Z)
    (before after : list (string * Z)) (w : World)
    (url querystring : option string) :
  let weights := before ++ (v, n) :: after in
  let this := TrafficCop (Some (mkConfig (JStr k) (Some (numeric weights)))) in
  verifyConfig this = true →
  Forall (λ p, 0 ≤ p.2) weights →
  NoDup weights.*1 →
  cookies w !! k = None →
  length (filter
    (λ rando, assigned_variation
                (generateRedirectUrl url querystring rando (this, w)) = JStr v)
    draws) = Z.to_nat n
  ∧ length (filter
      (λ rando, assigned_variation
                  (generateRedirectUrl url querystring rando (this, w))
                = JUndefined)
      draws) = Z.to_nat (100 - totalPercentage this).
Proof.
  intros weights this Hvalid Hnonneg Hnodup Hnone.
  destruct (shares_split v n before after Hnonneg Hnodup)
    as (Hb & Hvb & Hva & Hn & Hsb & Hsa & Hsum).
  pose proof (shares_total k v n before after) as Htotal.
  fold weights this in Htotal. fold weights in Hsum.
  apply verifyConfig_true_iff in Hvalid as (_ & _ & H100).
  split.
  - rewrite (filter_ext_in _ (λ r, sumZ before.*2 < r ∧ r ≤ sumZ before.*2 + n)).
    + rewrite count_draws_in_range by lia. f_equal. lia.
    + intros r Hr. apply elem_of_seqZ in Hr.
      apply (draw_assigns k v n before after w url querystring Hnonneg Hnodup Hnone).
      lia.
  - rewrite (filter_ext_in _ (λ r, totalPercentage this < r ∧ r ≤ 100)).
    + rewrite count_draws_in_range by lia. done.
    + intros r Hr. apply elem_of_seqZ in Hr.
      pose proof (draw_assigns_nothing k v n before after w url querystring
                    Hnonneg Hnone r) as Hiff.
      fold weights this in Hiff. specialize (Hiff ltac:(lia)).
      split; [intros Hu; apply Hiff in Hu; lia | intros [Hgt _]; by apply Hiff].
Qed.

Lemma each_variation_gets_its_share_witness :
  length (filter
    (λ rando, assigned_variation
                (generateRedirectUrl None None rando
                   (TrafficCop (Some exp1), page ∅)) = JStr "v=2")
    draws) = Z.to_nat 25.
Proof.
  refine (proj1 (each_variation_gets_its_share "exp1" "v=2" 25 [("v=1", 25)] []
                   (page ∅) None None _ _ _ _)); try reflexivity.
  - repeat constructor; cbn; lia.
  - cbn. repeat constructor; rewrite ?not_elem_of_cons; repeat split;
      try discriminate; apply not_elem_of_nil.
Defined.

(** ** Two calls on one instance *)

(** Lines 54, 172 and 183. [this.redirectVariation] outlives the call that
    set it: after a call without cookie whose draw assigned [v], a second
    call on the same instance whose draw exceeds [totalPercentage] assigns
    nothing new and still returns the redirect for [v]. *)
Theorem second_call_returns_first_choice (k : string)
    (weights : list (string * Z)) (w : World) (url querystring : option string)
    (rando1 rando2 : Z) :
  let this := TrafficCop (Some (mkConfig (JStr k) (Some (numeric weights)))) in
  cookies w !! k = None →
  1 ≤ rando1 ≤ totalPercentage this →
  totalPercentage this < rando2 →
  ∃ v, first_reaching rando1 weights v
    ∧ bind (generateRedirectUrl url querystring rando1)
        (λ _, generateRedirectUrl url querystring rando2) (this, w)
      = Normal (redirect_of (or_else url (href w))
                  (or_else querystring (search w)) (JStr v),
                (with_redirectVariation this (JStr v),
                 record (HasItem k) (record (HasItem k) w))).
Proof.
  intros this Hnone Hrando1 Hrando2.
  assert (Htotal : totalPercentage this = sumZ weights.*2).
  { unfold this. rewrite totalPercentage_TrafficCop.
    change (sumZ (numeric_weights (numeric weights)) = sumZ weights.*2).
    by rewrite numeric_weights_numeric. }
  destruct (first_reaching_of_walk rando1 weights) as (v & Hfirst & Hrun);
    [lia | lia |].
  exists v. split; [done |].
  unfold bind, mbind, M_bind.
  rewrite (generateRedirectUrl_no_cookie this w k _ _ _ eq_refl Hnone).
  rewrite (proj2 (Z.leb_le _ _)) by lia.
  change (enumerate (variations this)) with (numeric weights).
  rewrite Hrun.
  rewrite (generateRedirectUrl_no_cookie (with_redirectVariation this (JStr v))
             (record (HasItem k) w) k _ _ _ eq_refl Hnone).
  change (totalPercentage (with_redirectVariation this (JStr v)))
    with (totalPercentage this).
  by rewrite (proj2 (Z.leb_gt _ _)) by lia.
Qed.

Lemma second_call_returns_first_choice_witness :
  ∃ v, first_reaching 10 [("v=1", 25); ("v=2", 25)] v
    ∧ bind (generateRedirectUrl None None 10)
        (λ _, generateRedirectUrl None None 80) (TrafficCop (Some exp1), page ∅)
      = Normal (redirect_of "https://www.mozilla.org/firefox/new/" "" (JStr v),
                (with_redirectVariation (TrafficCop (Some exp1)) (JStr v),
                 record (HasItem "exp1") (record (HasItem "exp1") (page ∅)))).
Proof.
  apply (second_call_returns_first_choice "exp1" [("v=1", 25); ("v=2", 25)]
           (page ∅) None None 10 80); [reflexivity | | ].
  - vm_compute. split; discriminate.
  - vm_compute. reflexivity.
Defined.
